(** * Stream reconciliation of the chat page

    A shallow embedding of the chat client's turn handling:
    - the zustand chat store (stores/chat-store: [addMessage],
      [updateLastMessage], [clearMessages], [setStreaming], [setError]);
    - [handleSend] of app/page.tsx, which folds the chunks of one streamed
      response into the last message of the store.

    JavaScript strings are sequences of UTF-16 code units; a string is a list
    of code units here, and the only units the code ever inspects are the
    three sentence marks of the regular expression in [handleSend]. *)

From Stdlib Require Import String Ascii ZArith DecimalString Floats.
From stdpp Require Import prelude.

Local Open Scope Z_scope.
Local Open Scope nat_scope.

(** ** Strings *)

Abbreviation jsstring := (list N).

Definition js (s : string) : jsstring :=
  (λ a, N_of_ascii a) <$> list_ascii_of_string s.
Arguments js s%_string_scope.

(** A template literal [`${prefix}${n}`] with a number rendered in decimal. *)
Definition template (prefix : jsstring) (n : N) : jsstring :=
  prefix ++ js (NilZero.string_of_uint (N.to_uint n)).

(** Truthiness of an optional string property: [undefined] and [""] are falsy. *)
Definition truthy (s : option jsstring) : bool :=
  match s with
  | Some (_ :: _) => true
  | _ => false
  end.

(** [a || b] on strings. *)
Definition orElse (s : option jsstring) (fallback : jsstring) : jsstring :=
  match s with
  | Some (c :: s') => c :: s'
  | _ => fallback
  end.

(** [x === "literal"] where [x] may be [undefined]. *)
Definition strictEq (x : option jsstring) (literal : jsstring) : bool :=
  bool_decide (x = Some literal).

(** ** The sentence pattern  /[^.!?]+[.!?]+/g *)

Definition terminal (c : N) : bool :=
  (c =? N_of_ascii ".")%N || (c =? N_of_ascii "!")%N || (c =? N_of_ascii "?")%N.

Definition plain (c : N) : bool := negb (terminal c).

(** Longest run of units satisfying [p] at the front, and what follows it. *)
Fixpoint span {A : Type} (p : A → bool) (l : list A) : list A * list A :=
  match l with
  | [] => ([], [])
  | x :: l' =>
      if p x then let '(run, rest) := span p l' in (x :: run, rest)
      else ([], l)
  end.

(** One attempt of the pattern at the front of [s]: a greedy non-empty run
    of [[^.!?]] followed by a greedy non-empty run of [[.!?]].  Giving back
    units of the first run cannot help (the unit after a shorter run is not a
    mark), so the attempt fails exactly when one of the two runs is empty. *)
Definition matchHere (s : jsstring) : option (jsstring * jsstring) :=
  let '(body, afterBody) := span plain s in
  let '(marks, rest) := span terminal afterBody in
  match body, marks with
  | _ :: _, _ :: _ => Some (body ++ marks, rest)
  | _, _ => None
  end.

(** All matches, left to right: after a match the search resumes where the
    match ended; after a failed attempt it resumes one unit further.  Every
    round consumes at least one unit, so [length s] rounds suffice. *)
Fixpoint matchAll (fuel : nat) (s : jsstring) : list jsstring :=
  match fuel, s with
  | S fuel', _ :: s' =>
      match matchHere s with
      | Some (m, rest) => m :: matchAll fuel' rest
      | None => matchAll fuel' s'
      end
  | _, _ => []
  end.

(** [String.prototype.match] with a global pattern: [null] when nothing matches. *)
Definition matchSentences (s : jsstring) : option (list jsstring) :=
  match matchAll (length s) s with
  | [] => None
  | ms => Some ms
  end.

(** [fullThinking.match(/[^.!?]+[.!?]+/g) || [fullThinking]] *)
Definition sentencesOf (fullThinking : jsstring) : list jsstring :=
  default [fullThinking] (matchSentences fullThinking).

(** ** Data of lib/api/qwen as the page and the store use it *)

Inductive Role := user | assistant.

Record ChatMessage := {
  id : jsstring;
  role : Role;
  content : jsstring;
  thinking : option jsstring;
  timestamp : N
}.

(** [Partial<ChatMessage>]: the properties present in an update object. *)
Record Updates := {
  upd_id : option jsstring;
  upd_role : option Role;
  upd_content : option jsstring;
  upd_thinking : option jsstring;
  upd_timestamp : option N
}.

Record ChatSettings := {
  temperature : float;
  maxTokens : N;
  enableThinking : bool;
  systemPrompt : jsstring
}.

(** A decoded frame of the stream; every property may be absent. *)
Record StreamChunk := {
  type : option jsstring;
  chunk : option jsstring;
  thinking_content : option jsstring;
  done : option bool
}.

(** ** The chat store *)

Record ChatState := {
  messages : list ChatMessage;
  settings : ChatSettings;
  isStreaming : bool;
  error : option jsstring;
  currentThinking : jsstring;
  currentContent : jsstring
}.

#[warnings="-inexact-float"]
Definition defaultSettings : ChatSettings := {|
  temperature := 0.7%float;
  maxTokens := 32768;
  enableThinking := true;
  systemPrompt := js "You are a helpful AI assistant with expertise in many topics. Show your reasoning process when enabled."
|}.

Definition initialState : ChatState := {|
  messages := [];
  settings := defaultSettings;
  isStreaming := false;
  error := None;
  currentThinking := [];
  currentContent := []
|}.

(** What a thrown JavaScript value looks like to [instanceof Error]. *)
Inductive Thrown :=
| ErrorObject (message : jsstring)
| OtherValue.

(** How a call ends: it returns, or it throws. *)
Inductive Completion (A : Type) :=
| Normal (value : A)
| Abrupt (thrown : Thrown).
Arguments Normal {A} value.
Arguments Abrupt {A} thrown.

Definition settle {A : Type} (dflt : A) (c : Completion A) : A :=
  match c with
  | Normal a => a
  | Abrupt _ => dflt
  end.

(** zustand's [set] with an updater: the updater runs on the current state
    and its result is installed.  None of the updaters below throws. *)
Definition set (updater : ChatState → ChatState) (state : ChatState)
  : Completion ChatState :=
  Normal (updater state).

Definition withMessages (ms : list ChatMessage) (state : ChatState) : ChatState := {|
  messages := ms;
  settings := settings state;
  isStreaming := isStreaming state;
  error := error state;
  currentThinking := currentThinking state;
  currentContent := currentContent state
|}.

(** Object spread [{ ...m, ...updates }]. *)
Definition spread (m : ChatMessage) (updates : Updates) : ChatMessage := {|
  id := default (id m) (upd_id updates);
  role := default (role m) (upd_role updates);
  content := default (content m) (upd_content updates);
  thinking := match upd_thinking updates with
              | Some t => Some t
              | None => thinking m
              end;
  timestamp := default (timestamp m) (upd_timestamp updates)
|}.

Definition addMessage (message : ChatMessage) : ChatState → Completion ChatState :=
  set (λ state, withMessages (messages state ++ [message]) state).

Definition updateLastMessage (updates : Updates) : ChatState → Completion ChatState :=
  set (λ state,
    let messages := messages state in
    let lastIndex := (Z.of_nat (length messages) - 1)%Z in
    let messages :=
      if bool_decide (0 ≤ lastIndex)%Z then
        match messages !! Z.to_nat lastIndex with
        | Some last => <[Z.to_nat lastIndex := spread last updates]> messages
        | None => messages
        end
      else messages in
    withMessages messages state).

Definition clearMessages : ChatState → Completion ChatState :=
  set (λ state, {|
    messages := [];
    settings := settings state;
    isStreaming := isStreaming state;
    error := None;
    currentThinking := [];
    currentContent := []
  |}).

Definition setStreaming (streaming : bool) : ChatState → Completion ChatState :=
  set (λ state, {|
    messages := messages state;
    settings := settings state;
    isStreaming := streaming;
    error := error state;
    currentThinking := currentThinking state;
    currentContent := currentContent state
  |}).

Definition setError (err : option jsstring) : ChatState → Completion ChatState :=
  set (λ state, {|
    messages := messages state;
    settings := settings state;
    isStreaming := isStreaming state;
    error := err;
    currentThinking := currentThinking state;
    currentContent := currentContent state
  |}).

(** ** The page: store plus the two channel flags of the component *)

Record World := {
  chat : ChatState;
  isThinkingStreaming : bool;
  isContentStreaming : bool
}.

Definition withChat (s : ChatState) (w : World) : World := {|
  chat := s;
  isThinkingStreaming := isThinkingStreaming w;
  isContentStreaming := isContentStreaming w
|}.

(** Everything [handleSend] does to the outside, in the order it does it.
    [ClearMessages] is the header button's handler; [handleSend] never issues
    it, but the user may, between two steps of a turn. *)
Inductive Call :=
| AddMessage (message : ChatMessage)
| UpdateLastMessage (updates : Updates)
| ClearMessages
| SetStreaming (streaming : bool)
| SetError (err : option jsstring)
| SetIsThinkingStreaming (flag : bool)
| SetIsContentStreaming (flag : bool)
| StreamChat (message : jsstring) (settings : ChatSettings)
| Sleep (ms : N)
| ConsoleLog (label : string)
| ConsoleError (label : string).

Definition onStore (action : ChatState → Completion ChatState) (w : World)
  : Completion World :=
  match action (chat w) with
  | Normal s => Normal (withChat s w)
  | Abrupt e => Abrupt e
  end.

Definition exec (c : Call) (w : World) : Completion World :=
  match c with
  | AddMessage m => onStore (addMessage m) w
  | UpdateLastMessage u => onStore (updateLastMessage u) w
  | ClearMessages => onStore clearMessages w
  | SetStreaming b => onStore (setStreaming b) w
  | SetError e => onStore (setError e) w
  | SetIsThinkingStreaming b =>
      Normal {| chat := chat w; isThinkingStreaming := b;
                isContentStreaming := isContentStreaming w |}
  | SetIsContentStreaming b =>
      Normal {| chat := chat w; isThinkingStreaming := isThinkingStreaming w;
                isContentStreaming := b |}
  | StreamChat _ _ | Sleep _ | ConsoleLog _ | ConsoleError _ => Normal w
  end.

(** A sequence of calls; a throw ends it. *)
Fixpoint run (calls : list Call) (w : World) : Completion World :=
  match calls with
  | [] => Normal w
  | c :: calls' =>
      match exec c w with
      | Normal w' => run calls' w'
      | Abrupt e => Abrupt e
      end
  end.

(** ** handleSend *)

(** The two local accumulators of a turn. *)
Record Acc := {
  accumulatedThinking : jsstring;
  accumulatedContent : jsstring
}.

(** The calls of the streaming part of a turn, each with the values the
    accumulators hold when it is made. *)
Abbreviation Log := (list (Acc * Call)).

Inductive Flow := Continue | Break.

Definition thinkingUpdate (t : jsstring) : Updates := {|
  upd_id := None; upd_role := None; upd_content := None;
  upd_thinking := Some t; upd_timestamp := None
|}.

Definition contentUpdate (c : jsstring) : Updates := {|
  upd_id := None; upd_role := None; upd_content := Some c;
  upd_thinking := None; upd_timestamp := None
|}.

Definition finalUpdate (acc : Acc) : Updates := {|
  upd_id := None; upd_role := None;
  upd_content := Some (accumulatedContent acc);
  upd_thinking := Some (accumulatedThinking acc);
  upd_timestamp := None
|}.

(** [for (const sentence of sentences) { ... }] *)
Fixpoint revealSentences (sentences : list jsstring) (currentText : jsstring)
    (acc : Acc) : Acc * Log :=
  match sentences with
  | [] => (acc, [])
  | sentence :: sentences' =>
      let currentText := currentText ++ sentence in
      let acc := {| accumulatedThinking := currentText;
                    accumulatedContent := accumulatedContent acc |} in
      let rest := revealSentences sentences' currentText acc in
      (rest.1,
       (acc, UpdateLastMessage (thinkingUpdate (accumulatedThinking acc)))
         :: (acc, Sleep 50) :: rest.2)
  end.

(** The four conditions of the [if] chain, in source order. *)
Definition thinkingBranch (c : StreamChunk) : bool :=
  strictEq (type c) (js "thinking") && truthy (thinking_content c).

Definition contentBranch (c : StreamChunk) : bool :=
  strictEq (type c) (js "content") && truthy (chunk c).

Definition finishBranch (c : StreamChunk) : bool :=
  strictEq (type c) (js "finish") || bool_decide (done c = Some true).

Definition errorBranch (c : StreamChunk) : bool :=
  strictEq (type c) (js "error").

(** The body of the [for await] loop for one chunk. *)
Definition onChunk (c : StreamChunk) (acc : Acc) : Flow * Acc * Log :=
  let received := (acc, ConsoleLog "Received chunk:") in
  if thinkingBranch c then
    let fullThinking := default [] (thinking_content c) in
    let sentences := sentencesOf fullThinking in
    let revealed := revealSentences sentences [] acc in
    let acc' := {| accumulatedThinking := fullThinking;
                   accumulatedContent := accumulatedContent revealed.1 |} in
    (Continue, acc',
     received :: (acc, SetIsThinkingStreaming true) :: revealed.2
       ++ [(acc', UpdateLastMessage (thinkingUpdate (accumulatedThinking acc')))])
  else if contentBranch c then
    let acc' := {| accumulatedThinking := accumulatedThinking acc;
                   accumulatedContent :=
                     accumulatedContent acc ++ default [] (chunk c) |} in
    (Continue, acc',
     [received; (acc, SetIsThinkingStreaming false);
      (acc, SetIsContentStreaming true);
      (acc', UpdateLastMessage (contentUpdate (accumulatedContent acc')))])
  else if finishBranch c then
    (Break, acc,
     [received; (acc, SetIsThinkingStreaming false);
      (acc, SetIsContentStreaming false);
      (acc, UpdateLastMessage (finalUpdate acc))])
  else if errorBranch c then
    (Break, acc,
     [received; (acc, ConsoleError "Error chunk:");
      (acc, SetError (Some (orElse (chunk c) (js "Unknown error"))))])
  else (Continue, acc, [received]).

(** What the stream hands to the loop: a chunk, or a transport fault, on
    which the generator calls the error callback given to [streamChat]
    (third argument) and goes on to end. *)
Inductive StreamItem :=
| Yield (c : StreamChunk)
| TransportFault (message : jsstring).

(** How the iteration ends when the loop does not break first. *)
Inductive StreamEnd :=
| Exhausted
| Rejected (thrown : Thrown).

(** The callback [(err) => { ... }] passed to [streamChat]. *)
Definition onStreamError (message : jsstring) (acc : Acc) : Log :=
  [(acc, ConsoleError "Stream error:"); (acc, SetError (Some message));
   (acc, SetStreaming false)].

(** [for await (const chunk of streamChat(...)) { ... }]; the flag tells
    whether the loop was left by [break]. *)
Fixpoint forAwait (items : list StreamItem) (acc : Acc) : bool * Acc * Log :=
  match items with
  | [] => (false, acc, [])
  | TransportFault message :: items' =>
      let rest := forAwait items' acc in
      (rest.1.1, rest.1.2, onStreamError message acc ++ rest.2)
  | Yield c :: items' =>
      let step := onChunk c acc in
      match step.1.1 with
      | Break => (true, step.1.2, step.2)
      | Continue =>
          let rest := forAwait items' step.1.2 in
          (rest.1.1, rest.1.2, step.2 ++ rest.2)
      end
  end.

Definition catchClause (thrown : Thrown) (acc : Acc) : Log :=
  [(acc, ConsoleError "Catch error:");
   (acc, SetError (Some (match thrown with
                         | ErrorObject message => message
                         | OtherValue => js "Failed to send message"
                         end)))].

Definition finallyClause (acc : Acc) : Log :=
  [(acc, SetStreaming false); (acc, SetIsThinkingStreaming false);
   (acc, SetIsContentStreaming false)].

Definition emptyAcc : Acc :=
  {| accumulatedThinking := []; accumulatedContent := [] |}.

(** From [let accumulatedThinking = ""] to the end of [handleSend], started
    with the accumulators at [acc]. *)
Definition streamFrom (items : list StreamItem) (ending : StreamEnd) (acc : Acc)
  : Acc * Log :=
  let looped := forAwait items acc in
  let acc' := looped.1.2 in
  let caught :=
    match looped.1.1, ending with
    | false, Rejected thrown => catchClause thrown acc'
    | _, _ => []
    end in
  (acc', looped.2 ++ caught ++ finallyClause acc').

(** The four clock readings of a turn ([Date.now()] and [new Date()], twice each). *)
Record Clock := {
  userIdNow : N;
  userDate : N;
  assistantIdNow : N;
  assistantDate : N
}.

Definition userMessage (message : jsstring) (clock : Clock) : ChatMessage := {|
  id := template (js "user-") (userIdNow clock);
  role := user;
  content := message;
  thinking := None;
  timestamp := userDate clock
|}.

Definition assistantMessage (clock : Clock) : ChatMessage := {|
  id := template (js "assistant-") (assistantIdNow clock);
  role := assistant;
  content := [];
  thinking := Some [];
  timestamp := assistantDate clock
|}.

(** Everything before the stream is opened. *)
Definition beforeStream (message : jsstring) (clock : Clock) : list Call :=
  [AddMessage (userMessage message clock);
   AddMessage (assistantMessage clock);
   SetStreaming true; SetError None;
   SetIsThinkingStreaming false; SetIsContentStreaming false].

(** [handleSend(message)], with the settings the component rendered with. *)
Definition handleSend (message : jsstring) (settings : ChatSettings)
    (clock : Clock) (items : list StreamItem) (ending : StreamEnd) : list Call :=
  beforeStream message clock
    ++ StreamChat message settings
    :: (streamFrom items ending emptyAcc).2.*2.

(** ** What a log writes *)

(** The string does not start with a sentence mark. *)
Definition startsPlain (s : jsstring) : Prop :=
  ∀ c, head s = Some c → terminal c = false.


Definition thinkingWrites (calls : list Call) : list jsstring :=
  omap (λ c, match c with
             | UpdateLastMessage u => upd_thinking u
             | _ => None
             end) calls.


Definition pauses (calls : list Call) : list N :=
  omap (λ c, match c with Sleep ms => Some ms | _ => None end) calls.


(** The successive values of [currentText] in the sentence loop. *)
Fixpoint runningTexts (currentText : jsstring) (sentences : list jsstring)
  : list jsstring :=
  match sentences with
  | [] => []
  | sentence :: sentences' =>
      (currentText ++ sentence) :: runningTexts (currentText ++ sentence) sentences'
  end.

(** ** Frames as the backend documents them *)

Definition thinkingEvent (T : jsstring) : StreamChunk := {|
  type := Some (js "thinking"); chunk := Some [];
  thinking_content := Some T; done := Some false
|}.

Definition contentEvent (fragment : jsstring) : StreamChunk := {|
  type := Some (js "content"); chunk := Some fragment;
  thinking_content := None; done := Some false
|}.

Definition finishEvent : StreamChunk := {|
  type := Some (js "finish"); chunk := Some [];
  thinking_content := None; done := Some true
|}.

(** An error frame that is not also flagged done. *)
Definition errorEvent (message : jsstring) : StreamChunk := {|
  type := Some (js "error"); chunk := Some message;
  thinking_content := None; done := None
|}.

(** ** Observing a run *)

(** The world a sequence of calls leaves (none of the calls throws, see
    [run_Normal]). *)
Definition after (calls : list Call) (w : World) : World :=
  settle w (run calls w).

Definition lastMessage (w : World) : option ChatMessage :=
  last (messages (chat w)).

(** The two text fields of the last message as a reader sees them. *)
Definition storeContent (w : World) : jsstring :=
  default [] (content <$> lastMessage w).

Definition storeThinking (w : World) : jsstring :=
  default [] (lastMessage w ≫= thinking).

(** The last message holds exactly what the accumulators hold. *)
Definition Synced (acc : Acc) (w : World) : Prop :=
  ∃ ms m, messages (chat w) = ms ++ [m]
    ∧ content m = accumulatedContent acc
    ∧ thinking m = Some (accumulatedThinking acc).


Definition clears (c : Call) : bool :=
  match c with ClearMessages => true | _ => false end.

(** Calls on the message list. *)
Definition touchesMessages (c : Call) : bool :=
  match c with
  | AddMessage _ | UpdateLastMessage _ | ClearMessages => true
  | _ => false
  end.

Definition messageCalls (calls : list Call) : list Call :=
  omap (λ c, if touchesMessages c then Some c else None) calls.

Definition errorReports (calls : list Call) : list (option jsstring) :=
  omap (λ c, match c with SetError e => Some e | _ => None end) calls.

(** The calls made before the stream is opened. *)
Fixpoint untilStream (calls : list Call) : list Call :=
  match calls with
  | [] => []
  | StreamChat _ _ :: _ => []
  | c :: calls' => c :: untilStream calls'
  end.

(** ** Frames by the branch they take *)

(** The kinds of event the loop distinguishes, with the payload each branch
    reads. *)
Inductive StreamEvent :=
| Thinking (text : jsstring)
| ContentDelta (fragment : jsstring)
| Finish
| Error (message : option jsstring).

(** Which branch of the chain a frame takes, if any. *)
Definition classify (c : StreamChunk) : option StreamEvent :=
  if thinkingBranch c then Some (Thinking (default [] (thinking_content c)))
  else if contentBranch c then Some (ContentDelta (default [] (chunk c)))
  else if finishBranch c then Some Finish
  else if errorBranch c then Some (Error (chunk c))
  else None.

(** The texts of the frames that take the thinking branch. *)
Definition thinkingTexts (items : list StreamItem) : list jsstring :=
  omap (λ item, match item with
                | Yield c => match classify c with
                             | Some (Thinking T) => Some T
                             | _ => None
                             end
                | TransportFault _ => None
                end) items.

(** A log entry of the streaming part: it never appends or clears, and an
    update carries the accumulators' own values and nothing else. *)
Definition faithful (e : Acc * Call) : Prop :=
  match e.2 with
  | AddMessage _ | ClearMessages => False
  | UpdateLastMessage u =>
      upd_id u = None ∧ upd_role u = None ∧ upd_timestamp u = None
      ∧ (∀ t, upd_thinking u = Some t → t = accumulatedThinking e.1)
      ∧ (∀ f, upd_content u = Some f → f = accumulatedContent e.1)
  | _ => True
  end.

(** Each element is related to the next, starting from [x]. *)
Fixpoint chainFrom {A : Type} (R : relation A) (x : A) (l : list A) : Prop :=
  match l with
  | [] => True
  | y :: l' => R x y ∧ chainFrom R y l'
  end.

(** The content accumulator of [b] extends that of [a]. *)
Abbreviation contentGrows :=
  (λ a b : Acc, accumulatedContent a `prefix_of` accumulatedContent b).

(** ** The rest of the chat store *)

(** [Partial<ChatSettings>]. *)
Record SettingsUpdates := {
  upd_temperature : option float;
  upd_maxTokens : option N;
  upd_enableThinking : option bool;
  upd_systemPrompt : option jsstring
}.

(** [{ ...state.settings, ...updates }] *)
Definition spreadSettings (s : ChatSettings) (updates : SettingsUpdates)
  : ChatSettings := {|
  temperature := default (temperature s) (upd_temperature updates);
  maxTokens := default (maxTokens s) (upd_maxTokens updates);
  enableThinking := default (enableThinking s) (upd_enableThinking updates);
  systemPrompt := default (systemPrompt s) (upd_systemPrompt updates)
|}.

(** A complete settings object passed where a partial one is expected. *)
Definition allSettings (s : ChatSettings) : SettingsUpdates := {|
  upd_temperature := Some (temperature s);
  upd_maxTokens := Some (maxTokens s);
  upd_enableThinking := Some (enableThinking s);
  upd_systemPrompt := Some (systemPrompt s)
|}.

Definition updateSettings (updates : SettingsUpdates)
  : ChatState → Completion ChatState :=
  set (λ state, {|
    messages := messages state;
    settings := spreadSettings (settings state) updates;
    isStreaming := isStreaming state;
    error := error state;
    currentThinking := currentThinking state;
    currentContent := currentContent state
  |}).

Definition withCurrent (t c : jsstring) (state : ChatState) : ChatState := {|
  messages := messages state;
  settings := settings state;
  isStreaming := isStreaming state;
  error := error state;
  currentThinking := t;
  currentContent := c
|}.

Definition setCurrentThinking (t : jsstring) : ChatState → Completion ChatState :=
  set (λ state, withCurrent t (currentContent state) state).

Definition setCurrentContent (c : jsstring) : ChatState → Completion ChatState :=
  set (λ state, withCurrent (currentThinking state) c state).

Definition appendCurrentContent (fragment : jsstring)
  : ChatState → Completion ChatState :=
  set (λ state,
    withCurrent (currentThinking state) (currentContent state ++ fragment) state).

Definition resetCurrent : ChatState → Completion ChatState :=
  set (λ state, withCurrent [] [] state).

(** The actions of the store, as a caller names them. *)
Inductive StoreAction :=
| DoAddMessage (message : ChatMessage)
| DoUpdateLastMessage (updates : Updates)
| DoClearMessages
| DoUpdateSettings (updates : SettingsUpdates)
| DoSetStreaming (streaming : bool)
| DoSetError (err : option jsstring)
| DoSetCurrentThinking (t : jsstring)
| DoSetCurrentContent (c : jsstring)
| DoAppendCurrentContent (fragment : jsstring)
| DoResetCurrent.

Definition act (a : StoreAction) : ChatState → Completion ChatState :=
  match a with
  | DoAddMessage m => addMessage m
  | DoUpdateLastMessage u => updateLastMessage u
  | DoClearMessages => clearMessages
  | DoUpdateSettings u => updateSettings u
  | DoSetStreaming b => setStreaming b
  | DoSetError e => setError e
  | DoSetCurrentThinking t => setCurrentThinking t
  | DoSetCurrentContent c => setCurrentContent c
  | DoAppendCurrentContent f => appendCurrentContent f
  | DoResetCurrent => resetCurrent
  end.

(** Actions one after the other; a throw ends the sequence. *)
Fixpoint acts (actions : list StoreAction) (state : ChatState)
  : Completion ChatState :=
  match actions with
  | [] => Normal state
  | a :: actions' =>
      match act a state with
      | Normal state' => acts actions' state'
      | Abrupt e => Abrupt e
      end
  end.

(** What [persist] writes to local storage: the [partialize] option. *)
Record PersistedState := {
  persistedMessages : list ChatMessage;
  persistedSettings : ChatSettings
}.

Definition partialize (state : ChatState) : PersistedState := {|
  persistedMessages := messages state;
  persistedSettings := settings state
|}.

(** Actions that only concern the user interface. *)
Definition uiOnly (a : StoreAction) : bool :=
  match a with
  | DoSetStreaming _ | DoSetError _ | DoSetCurrentThinking _
  | DoSetCurrentContent _ | DoAppendCurrentContent _ | DoResetCurrent => true
  | _ => false
  end.

(** [{ ...u1, ...u2 }] on update objects. *)
Definition mergeUpdates (u1 u2 : Updates) : Updates := {|
  upd_id := match upd_id u2 with Some x => Some x | None => upd_id u1 end;
  upd_role := match upd_role u2 with Some x => Some x | None => upd_role u1 end;
  upd_content :=
    match upd_content u2 with Some x => Some x | None => upd_content u1 end;
  upd_thinking :=
    match upd_thinking u2 with Some x => Some x | None => upd_thinking u1 end;
  upd_timestamp :=
    match upd_timestamp u2 with Some x => Some x | None => upd_timestamp u1 end
|}.

(** ** More ways to look at a stream *)

(** The frame takes the finish or the error branch: the loop ends on it. *)
Definition endsLoop (item : StreamItem) : bool :=
  match item with
  | Yield c => match classify c with
               | Some Finish | Some (Error _) => true
               | _ => false
               end
  | TransportFault _ => false
  end.

Definition isFault (item : StreamItem) : bool :=
  match item with TransportFault _ => true | Yield _ => false end.

(** The fragments of the frames that take the content branch. *)
Definition contentFragments (items : list StreamItem) : list jsstring :=
  omap (λ item, match item with
                | Yield c => match classify c with
                             | Some (ContentDelta f) => Some f
                             | _ => None
                             end
                | TransportFault _ => None
                end) items.

Definition streamingCalls (calls : list Call) : list bool :=
  omap (λ c, match c with SetStreaming b => Some b | _ => None end) calls.

(** What the [catch] clause reports for a thrown value. *)
Definition thrownMessage (thrown : Thrown) : jsstring :=
  match thrown with
  | ErrorObject message => message
  | OtherValue => js "Failed to send message"
  end.

(** What one match of the pattern looks like: plain units, then marks. *)
Definition sentenceShaped (m : jsstring) : Prop :=
  ∃ body marks, m = body ++ marks ∧ body ≠ [] ∧ marks ≠ []
    ∧ Forall (λ x, terminal x = false) body
    ∧ Forall (λ x, terminal x = true) marks.

(** ** What the page renders *)

(** Truthiness of a string that is always present. *)
Definition nonEmpty (s : jsstring) : bool :=
  match s with [] => false | _ :: _ => true end.

Definition isAssistant (m : ChatMessage) : bool :=
  match role m with assistant => true | user => false end.

Definition isUser (m : ChatMessage) : bool :=
  match role m with user => true | assistant => false end.

(** [disabled] of the clear button in the header. *)
Definition clearDisabled (w : World) : bool :=
  bool_decide (length (messages (chat w)) = 0) || isStreaming (chat w).

(** The welcome text: [messages.length === 0 && !isStreaming]. *)
Definition showsWelcome (w : World) : bool :=
  bool_decide (length (messages (chat w)) = 0) && negb (isStreaming (chat w)).

(** Inside [messages.map((msg, index) => ...)]. *)
Definition isLastMessage (w : World) (index : nat) : bool :=
  bool_decide (Z.of_nat index = Z.of_nat (length (messages (chat w))) - 1)%Z.

Definition isStreamingThisMessage (w : World) (index : nat) (msg : ChatMessage)
  : bool :=
  isStreaming (chat w) && isLastMessage w index && isAssistant msg.

Definition isEmptyAndWaiting (w : World) (index : nat) (msg : ChatMessage)
  : bool :=
  isStreamingThisMessage w index msg
  && negb (nonEmpty (content msg))
  && negb (truthy (thinking msg))
  && negb (isThinkingStreaming w)
  && negb (isContentStreaming w).

(** The props handed to the message component. *)
Record ChatMessageProps := {
  propMessage : ChatMessage;
  propIsStreaming : bool;
  propIsThinkingStreaming : bool;
  propIsContentStreaming : bool
}.

(** One element of the mapped list: [null] for the waiting placeholder. *)
Definition renderMessage (w : World) (index : nat) (msg : ChatMessage)
  : option ChatMessageProps :=
  if isEmptyAndWaiting w index msg then None
  else Some {|
    propMessage := msg;
    propIsStreaming := isStreamingThisMessage w index msg;
    propIsThinkingStreaming :=
      isStreamingThisMessage w index msg && isThinkingStreaming w;
    propIsContentStreaming :=
      isStreamingThisMessage w index msg && isContentStreaming w
  |}.

Definition renderMessages (w : World) : list (option ChatMessageProps) :=
  imap (renderMessage w) (messages (chat w)).

(** The card "Waiting for AI response...". *)
Definition showsLoading (w : World) : bool :=
  isStreaming (chat w)
  && negb (isThinkingStreaming w)
  && negb (isContentStreaming w)
  && match lastMessage w with
     | Some m => isAssistant m
     | None => false
     end
  && negb (match lastMessage w with
           | Some m => nonEmpty (content m)
           | None => false
           end)
  && negb (match lastMessage w with
           | Some m => truthy (thinking m)
           | None => false
           end).

(** ** The message component (components/chat/chat-message) *)

(** The card "Reasoning Process". *)
Definition showsThinkingCard (p : ChatMessageProps) : bool :=
  truthy (thinking (propMessage p)) && isAssistant (propMessage p).

(** The badge "thinking..." inside that card. *)
Definition showsThinkingBadge (p : ChatMessageProps) : bool :=
  showsThinkingCard p && propIsThinkingStreaming p.

(** The card with the main content. *)
Definition showsContentCard (p : ChatMessageProps) : bool :=
  nonEmpty (content (propMessage p)) || propIsContentStreaming p.

(** The line "Generating response..." inside that card. *)
Definition showsGenerating (p : ChatMessageProps) : bool :=
  showsContentCard p && propIsContentStreaming p && isAssistant (propMessage p).

(** ** The message input (components/chat/message-input) *)

Module MessageInput.

(** The code units [String.prototype.trim] strips: white space and line
    terminators. *)
Definition isWhiteSpace (c : N) : bool :=
  bool_decide (c ∈ [9; 10; 11; 12; 13; 32; 160; 5760; 8232; 8233; 8239; 8287;
                    12288; 65279]%N)
  || ((8192 <=? c)%N && (c <=? 8202)%N).

Definition trimStart (s : jsstring) : jsstring := (span isWhiteSpace s).2.

Definition trimEnd (s : jsstring) : jsstring :=
  reverse (trimStart (reverse s)).

Definition trim (s : jsstring) : jsstring := trimEnd (trimStart s).

(** What the handlers of the input do to the outside. *)
Inductive Effect :=
| OnSend (text : jsstring)
| SetMessage (value : jsstring)
| ResetHeight
| PreventDefault.

(** [handleSend]; [mounted] tells whether the textarea ref is set. *)
Definition handleSend (disabled : bool) (message : jsstring) (mounted : bool)
  : list Effect :=
  if nonEmpty (trim message) && negb disabled then
    OnSend (trim message) :: SetMessage []
      :: (if mounted then [ResetHeight] else [])
  else [].

Record KeyboardEvent := {
  key : jsstring;
  ctrlKey : bool;
  metaKey : bool;
  shiftKey : bool
}.

Definition handleKeyDown (e : KeyboardEvent) (disabled : bool)
    (message : jsstring) (mounted : bool) : list Effect :=
  if bool_decide (key e = js "Enter") && (ctrlKey e || metaKey e) then
    PreventDefault :: handleSend disabled message mounted
  else if bool_decide (key e = js "Enter") && negb (shiftKey e) then
    PreventDefault :: handleSend disabled message mounted
  else [].

(** [disabled] of the send button. *)
Definition buttonDisabled (disabled : bool) (message : jsstring) : bool :=
  disabled || negb (nonEmpty (trim message)).

End MessageInput.

(** ** The settings panel (components/chat/settings-panel) *)

Module SettingsPanel.

Record Panel := {
  localSettings : ChatSettings;
  isOpen : bool
}.

(** [useState<ChatSettings>(settings)] on first render. *)
Definition mount (store : ChatState) : Panel :=
  {| localSettings := settings store; isOpen := false |}.

(** The literal of [handleReset]. *)
#[warnings="-inexact-float"]
Definition defaultSettings : ChatSettings := {|
  temperature := 0.7%float;
  maxTokens := 32768;
  enableThinking := true;
  systemPrompt := js "You are a helpful AI assistant with expertise in many topics. Show your reasoning process when enabled."
|}.

Definition handleSave (p : Panel) (store : ChatState)
  : Panel * Completion ChatState :=
  ({| localSettings := localSettings p; isOpen := false |},
   updateSettings (allSettings (localSettings p)) store).

Definition handleReset (p : Panel) (store : ChatState)
  : Panel * Completion ChatState :=
  ({| localSettings := defaultSettings; isOpen := isOpen p |},
   updateSettings (allSettings defaultSettings) store).

(** The four [setLocalSettings({ ...localSettings, field: value })]. *)
Definition editTemperature (value : float) (p : Panel) : Panel := {|
  localSettings := {| temperature := value;
                      maxTokens := maxTokens (localSettings p);
                      enableThinking := enableThinking (localSettings p);
                      systemPrompt := systemPrompt (localSettings p) |};
  isOpen := isOpen p
|}.

Definition editMaxTokens (value : N) (p : Panel) : Panel := {|
  localSettings := {| temperature := temperature (localSettings p);
                      maxTokens := value;
                      enableThinking := enableThinking (localSettings p);
                      systemPrompt := systemPrompt (localSettings p) |};
  isOpen := isOpen p
|}.

Definition editEnableThinking (checked : bool) (p : Panel) : Panel := {|
  localSettings := {| temperature := temperature (localSettings p);
                      maxTokens := maxTokens (localSettings p);
                      enableThinking := checked;
                      systemPrompt := systemPrompt (localSettings p) |};
  isOpen := isOpen p
|}.

Definition editSystemPrompt (value : jsstring) (p : Panel) : Panel := {|
  localSettings := {| temperature := temperature (localSettings p);
                      maxTokens := maxTokens (localSettings p);
                      enableThinking := enableThinking (localSettings p);
                      systemPrompt := value |};
  isOpen := isOpen p
|}.

End SettingsPanel.

(** The call is no [setStreaming]. *)
Definition keepsStreaming (c : Call) : bool :=
  match c with SetStreaming _ => false | _ => true end.


(** * Properties *)

(** ** Runs and matches *)

Section Span.
Context {A : Type} (p : A → bool).

Lemma span_app l : (span p l).1 ++ (span p l).2 = l.
Proof.
  induction l as [|x l IH]; simpl; [done|].
  destruct (p x); [|done].
  destruct (span p l) as [run rest]; simpl in *. by rewrite IH.
Qed.

Lemma span_run l : Forall (λ x, p x = true) (span p l).1.
Proof.
  induction l as [|x l IH]; simpl; [constructor|].
  destruct (p x) eqn:Hx; [|constructor].
  destruct (span p l) as [run rest]; simpl in *. by constructor.
Qed.

Lemma span_stop l x : head (span p l).2 = Some x → p x = false.
Proof.
  induction l as [|y l IH]; simpl; [done|].
  destruct (p y) eqn:Hy.
  - destruct (span p l) as [run rest]; simpl in *. done.
  - simpl. by intros [= ->].
Qed.

Lemma span_reject x l : p x = false → span p (x :: l) = ([], x :: l).
Proof. intros Hx; simpl. by rewrite Hx. Qed.

Lemma span_accept x l :
  p x = true → span p (x :: l) = (x :: (span p l).1, (span p l).2).
Proof. intros Hx; simpl. rewrite Hx. by destruct (span p l). Qed.

Lemma span_all l : Forall (λ x, p x = true) l → span p l = (l, []).
Proof.
  induction 1 as [|x l Hx _ IH]; [done|].
  rewrite span_accept by done. by rewrite IH.
Qed.

Lemma span_rest_length l : length (span p l).2 ≤ length l.
Proof.
  rewrite <- (span_app l) at 2. rewrite length_app. lia.
Qed.
End Span.

Lemma plain_terminal c : plain c = true ↔ terminal c = false.
Proof. unfold plain. by destruct (terminal c). Qed.

Lemma plain_false c : plain c = false ↔ terminal c = true.
Proof. unfold plain. by destruct (terminal c). Qed.

(** What a successful attempt returns: the match is a non-empty front of
    the string, it starts on a unit that is no mark, and what is left does
    not start with a mark. *)
Lemma matchHere_Some s m rest :
  matchHere s = Some (m, rest) →
  s = m ++ rest ∧ m ≠ [] ∧ length rest < length s
  ∧ (∀ x, head s = Some x → terminal x = false)
  ∧ (∀ x, head rest = Some x → terminal x = false).
Proof.
  unfold matchHere.
  pose proof (span_app plain s) as Hs.
  pose proof (span_run plain s) as Hrun.
  destruct (span plain s) as [body afterBody] eqn:Hbody; simpl in Hs, Hrun.
  pose proof (span_app terminal afterBody) as Ha.
  pose proof (span_stop terminal afterBody) as Hstop.
  destruct (span terminal afterBody) as [marks rest'] eqn:Hmarks; simpl in *.
  destruct body as [|b body]; [done|].
  destruct marks as [|k marks]; [done|].
  intros [= <- <-]. subst afterBody. subst s.
  split_and!.
  - simpl. f_equal. by rewrite <- app_assoc.
  - done.
  - rewrite !length_app. simpl. lia.
  - simpl. intros x [= <-].
    apply plain_terminal. exact (Forall_inv Hrun).
  - done.
Qed.

(** An attempt on a string that starts with a mark fails. *)
Lemma matchHere_terminal c s : terminal c = true → matchHere (c :: s) = None.
Proof.
  intros Hc. unfold matchHere.
  rewrite span_reject by (by apply plain_false).
  by destruct (span terminal (c :: s)).
Qed.

(** An attempt that fails on a string starting with a plain unit: the string
    has no mark at all. *)
Lemma matchHere_None_plain c s :
  terminal c = false → matchHere (c :: s) = None →
  Forall (λ x, plain x = true) (c :: s).
Proof.
  intros Hc. unfold matchHere.
  pose proof (span_app plain (c :: s)) as Hs.
  pose proof (span_run plain (c :: s)) as Hrun.
  pose proof (span_stop plain (c :: s)) as Hstop.
  rewrite span_accept in * by (by apply plain_terminal).
  simpl in *.
  destruct (span plain s) as [body afterBody]; simpl in *.
  destruct afterBody as [|a afterBody].
  - intros _. rewrite app_nil_r in Hs. by rewrite <- Hs.
  - specialize (Hstop a eq_refl). apply plain_false in Hstop.
    rewrite span_accept by done. done.
Qed.

Lemma matchAll_plain fuel s :
  Forall (λ x, plain x = true) s → matchAll fuel s = [].
Proof.
  revert s. induction fuel as [|fuel IH]; intros s Hs; [done|].
  destruct s as [|c s]; [done|]. simpl.
  destruct (matchHere (c :: s)) as [[m rest]|] eqn:Hm.
  - exfalso. unfold matchHere in Hm. rewrite (span_all plain) in Hm by done.
    simpl in Hm. by destruct c.
  - apply IH. exact (Forall_inv_tail Hs).
Qed.


(** The matches, glued together, are a front of the string once its leading
    marks are removed: the pattern skips marks at the start and nothing else
    before the last match. *)
Lemma matchAll_concat fuel s :
  length s ≤ fuel → concat (matchAll fuel s) `prefix_of` (span terminal s).2.
Proof.
  revert s. induction fuel as [|fuel IH]; intros s Hlen.
  { destruct s; simpl; apply prefix_nil. }
  destruct s as [|c s]; [apply prefix_nil|].
  simpl in Hlen. cbn [matchAll].
  destruct (terminal c) eqn:Hc.
  - rewrite matchHere_terminal by done.
    rewrite span_accept by done. simpl. apply IH. lia.
  - rewrite span_reject by done. simpl.
    destruct (matchHere (c :: s)) as [[m rest]|] eqn:Hm.
    + apply matchHere_Some in Hm as (Hs & _ & Hrest & _ & Hstop).
      rewrite Hs. simpl. apply prefix_app.
      assert (span terminal rest = ([], rest)) as Hspan.
      { destruct rest as [|r rest]; [done|].
        apply span_reject. by apply Hstop. }
      specialize (IH rest). rewrite Hspan in IH. apply IH.
      simpl in Hrest. lia.
    + apply matchHere_None_plain in Hm; [|done].
      rewrite matchAll_plain by exact (Forall_inv_tail Hm). apply prefix_nil.
Qed.

(** A string that does not start with a mark has nothing removed in front. *)
Lemma span_terminal_startsPlain s : startsPlain s → (span terminal s).2 = s.
Proof.
  intros Hs. destruct s as [|c s]; [done|].
  by rewrite span_reject by (by apply Hs).
Qed.


Lemma sentencesOf_not_nil T : sentencesOf T ≠ [].
Proof.
  unfold sentencesOf, matchSentences.
  by destruct (matchAll (length T) T).
Qed.

Lemma sentencesOf_cases T :
  sentencesOf T = [T]
  ∨ concat (sentencesOf T) `prefix_of` (span terminal T).2.
Proof.
  unfold sentencesOf, matchSentences.
  pose proof (matchAll_concat (length T) T (le_n _)) as H.
  destruct (matchAll (length T) T); simpl; [by left|by right].
Qed.

Lemma sentencesOf_concat T :
  startsPlain T → concat (sentencesOf T) `prefix_of` T.
Proof.
  intros HT. unfold sentencesOf, matchSentences.
  pose proof (matchAll_concat (length T) T (le_n _)) as H.
  rewrite span_terminal_startsPlain in H by done.
  destruct (matchAll (length T) T); simpl; [by rewrite app_nil_r|done].
Qed.

(** Without its leading marks a text is never longer, so the glued
    sentences never exceed the text. *)
Lemma sentencesOf_length T : length (concat (sentencesOf T)) ≤ length T.
Proof.
  unfold sentencesOf, matchSentences.
  pose proof (matchAll_concat (length T) T (le_n _)) as H.
  apply prefix_length in H.
  pose proof (span_rest_length terminal T).
  destruct (matchAll (length T) T); simpl in *; [rewrite app_nil_r|]; lia.
Qed.

(** The number of rounds given to [matchAll] does not matter once it covers
    the string. *)
Lemma matchAll_fuel fuel1 fuel2 s :
  length s ≤ fuel1 → length s ≤ fuel2 → matchAll fuel1 s = matchAll fuel2 s.
Proof.
  revert fuel2 s. induction fuel1 as [|fuel1 IH]; intros fuel2 s H1 H2.
  { destruct s; [|simpl in H1; lia]. by destruct fuel2. }
  destruct s as [|c s]; [by destruct fuel2|].
  destruct fuel2 as [|fuel2]; [simpl in H2; lia|].
  simpl in H1, H2. cbn [matchAll].
  destruct (matchHere (c :: s)) as [[m rest]|] eqn:Hm.
  - apply matchHere_Some in Hm as (_ & _ & Hlen & _). simpl in Hlen.
    f_equal. apply IH; lia.
  - apply IH; lia.
Qed.






Lemma runningTexts_last cur ss :
  ss ≠ [] → last (runningTexts cur ss) = Some (cur ++ concat ss).
Proof.
  revert cur. induction ss as [|s ss IH]; intros cur Hne; [done|]. simpl.
  destruct ss as [|s' ss].
  - simpl. by rewrite app_nil_r.
  - rewrite app_assoc. rewrite <- IH by done. done.
Qed.

Lemma revealSentences_thinkingWrites ss cur acc :
  thinkingWrites (revealSentences ss cur acc).2.*2 = runningTexts cur ss.
Proof.
  revert cur acc. induction ss as [|s ss IH]; intros cur acc; simpl; [done|].
  by rewrite IH.
Qed.


Lemma revealSentences_pauses ss cur acc :
  pauses (revealSentences ss cur acc).2.*2 = replicate (length ss) 50%N.
Proof.
  revert cur acc. induction ss as [|s ss IH]; intros cur acc; simpl; [done|].
  by rewrite IH.
Qed.

Lemma revealSentences_content ss cur acc :
  accumulatedContent (revealSentences ss cur acc).1 = accumulatedContent acc.
Proof.
  revert cur acc. induction ss as [|s ss IH]; intros cur acc; simpl; [done|].
  by rewrite IH.
Qed.

(** The thinking branch is taken exactly on a frame typed "thinking" with a
    non-empty text. *)
Lemma thinkingBranch_true c :
  thinkingBranch c = true ↔
  type c = Some (js "thinking") ∧ ∃ T, thinking_content c = Some T ∧ T ≠ [].
Proof.
  unfold thinkingBranch, strictEq.
  rewrite andb_true_iff, bool_decide_eq_true. split.
  - intros [Hty Htr]. split; [done|].
    destruct (thinking_content c) as [[|x T]|]; try done. by exists (x :: T).
  - intros (Hty & T & -> & HT). split; [done|]. by destruct T.
Qed.


Lemma thinkingWrites_app l1 l2 :
  thinkingWrites (l1 ++ l2) = thinkingWrites l1 ++ thinkingWrites l2.
Proof. apply omap_app. Qed.


Lemma pauses_app l1 l2 : pauses (l1 ++ l2) = pauses l1 ++ pauses l2.
Proof. apply omap_app. Qed.



(** ** One thinking frame *)




(** ** Calls never throw *)

Lemma exec_Normal c w : exec c w = Normal (after [c] w).
Proof. unfold after. simpl. by destruct c. Qed.

Lemma after_nil w : after [] w = w.
Proof. done. Qed.

Lemma run_total calls w : ∃ w', run calls w = Normal w'.
Proof.
  revert w. induction calls as [|c calls IH]; intros w; [by exists w|].
  cbn [run]. rewrite exec_Normal. apply IH.
Qed.

Lemma run_Normal calls w : run calls w = Normal (after calls w).
Proof.
  unfold after. destruct (run_total calls w) as [w' ->]. done.
Qed.

Lemma after_cons c calls w : after (c :: calls) w = after calls (after [c] w).
Proof.
  unfold after at 1. cbn [run]. rewrite exec_Normal, run_Normal. done.
Qed.

(** Peel the calls off the front of a run, one at a time. *)
Ltac peel :=
  repeat first [ rewrite (after_cons _ (_ :: _)) | rewrite (after_cons _ (_ ++ _)) ].

Lemma after_app calls1 calls2 w :
  after (calls1 ++ calls2) w = after calls2 (after calls1 w).
Proof.
  revert w. induction calls1 as [|c calls1 IH]; intros w; [done|].
  simpl. rewrite after_cons, IH. by rewrite <- after_cons.
Qed.

(** ** The store actions on the message list *)

Lemma withMessages_same s : withMessages (messages s) s = s.
Proof. by destruct s. Qed.

Lemma withChat_same w : withChat (chat w) w = w.
Proof. by destruct w. Qed.

Lemma updateLastMessage_empty u s :
  messages s = [] → updateLastMessage u s = Normal s.
Proof.
  intros Hs. unfold updateLastMessage, set. rewrite Hs. simpl.
  rewrite <- Hs. by rewrite withMessages_same.
Qed.

Lemma updateLastMessage_snoc u s ms m :
  messages s = ms ++ [m] →
  updateLastMessage u s = Normal (withMessages (ms ++ [spread m u]) s).
Proof.
  intros Hs. unfold updateLastMessage, set. rewrite Hs. f_equal. f_equal.
  rewrite length_app. simpl.
  replace (Z.of_nat (length ms + 1) - 1)%Z with (Z.of_nat (length ms)) by lia.
  rewrite bool_decide_eq_true_2 by lia. rewrite Nat2Z.id.
  rewrite list_lookup_middle by done.
  rewrite insert_app_r_alt by done. by rewrite Nat.sub_diag.
Qed.

Lemma after_update_empty u w :
  messages (chat w) = [] → after [UpdateLastMessage u] w = w.
Proof.
  intros Hw. unfold after. cbn [run exec]. unfold onStore.
  rewrite updateLastMessage_empty by done. simpl. apply withChat_same.
Qed.

Lemma after_update_snoc u w ms m :
  messages (chat w) = ms ++ [m] →
  after [UpdateLastMessage u] w
    = withChat (withMessages (ms ++ [spread m u]) (chat w)) w.
Proof.
  intros Hw. unfold after. cbn [run exec]. unfold onStore.
  by rewrite (updateLastMessage_snoc u _ ms m).
Qed.

(** Calls that are neither an append, an update nor a clear leave the
    message list alone. *)
Lemma after_other_messages c w :
  touchesMessages c = false → messages (chat (after [c] w)) = messages (chat w).
Proof. by destruct c. Qed.


Lemma after_clear_messages w : messages (chat (after [ClearMessages] w)) = [].
Proof. done. Qed.

(** ** updateLastMessage on an empty store *)

(** C7, as the code has it.  On a store without messages
    [updateLastMessage] returns normally and leaves the whole state as it
    was: the message list stays empty, and nothing (neither a throw nor the
    [error] field) tells the caller. *)
Theorem updateLast_empty_store_silent u s :
  messages s = [] →
  updateLastMessage u s = Normal s
  ∧ (∀ s', updateLastMessage u s = Normal s' →
       messages s' = [] ∧ error s' = error s).
Proof.
  intros Hs. rewrite updateLastMessage_empty by done.
  split; [done|]. by intros s' [= <-].
Qed.

Lemma updateLast_empty_store_silent_witness :
  updateLastMessage (contentUpdate (js "X")) initialState = Normal initialState
  ∧ (∀ s', updateLastMessage (contentUpdate (js "X")) initialState = Normal s' →
       messages s' = [] ∧ error s' = error initialState).
Proof.
  apply (updateLast_empty_store_silent (contentUpdate (js "X")) initialState).
  reflexivity.
Defined.

(** C7 as worded fails: the call on the empty initial store does not end in
    a throw, and the store's [error] field stays [null]. *)
Lemma updateLast_empty_store_no_logic_error :
  messages initialState = []
  ∧ (¬ ∃ thrown,
        updateLastMessage (contentUpdate (js "X")) initialState = Abrupt thrown)
  ∧ ∃ s', updateLastMessage (contentUpdate (js "X")) initialState = Normal s'
          ∧ error s' = None.
Proof.
  split_and!.
  - reflexivity.
  - intros [thrown H]. vm_compute in H. discriminate.
  - eexists. split; [vm_compute; reflexivity|reflexivity].
Qed.

(** ** The start of a turn *)

(** C9.  Up to the call that opens the stream, [handleSend] touches the
    message list exactly twice: it appends the user message carrying the
    submitted text, then the assistant placeholder whose content and thinking
    are both empty; the list at that point is the old list with these two at
    its end.  The remaining calls before the stream set the streaming flag,
    reset the error and lower the two channel flags. *)
Theorem turn_start_appends_two message settings clock items ending w :
  let calls := handleSend message settings clock items ending in
  let opening := untilStream calls in
  messageCalls opening
    = [AddMessage (userMessage message clock);
       AddMessage (assistantMessage clock)]
  ∧ role (userMessage message clock) = user
  ∧ content (userMessage message clock) = message
  ∧ role (assistantMessage clock) = assistant
  ∧ content (assistantMessage clock) = []
  ∧ thinking (assistantMessage clock) = Some []
  ∧ messages (chat (after opening w))
    = messages (chat w)
        ++ [userMessage message clock; assistantMessage clock]
  ∧ opening
    = [AddMessage (userMessage message clock);
       AddMessage (assistantMessage clock);
       SetStreaming true; SetError None;
       SetIsThinkingStreaming false; SetIsContentStreaming false]
  ∧ ∃ streamed, calls = opening ++ StreamChat message settings :: streamed.
Proof.
  simpl. split_and!; try reflexivity.
  - unfold after. simpl. by rewrite <- app_assoc.
  - eexists. reflexivity.
Qed.

(** ** A thinking frame without text *)

Lemma strictEq_type_thinking :
  strictEq (Some (js "thinking")) (js "content") = false
  ∧ strictEq (Some (js "thinking")) (js "finish") = false
  ∧ strictEq (Some (js "thinking")) (js "error") = false.
Proof. by vm_compute. Qed.

(** C10.  A frame typed "thinking" whose text is empty (or absent), and
    which is not flagged done, falls through the whole chain: the loop goes
    on, the accumulators are unchanged, and the only call is the console
    log, which leaves the store and both flags as they were. *)
Theorem empty_thinking_ignored c acc w :
  type c = Some (js "thinking") →
  truthy (thinking_content c) = false →
  done c ≠ Some true →
  onChunk c acc = (Continue, acc, [(acc, ConsoleLog "Received chunk:")])
  ∧ thinkingWrites (onChunk c acc).2.*2 = []
  ∧ pauses (onChunk c acc).2.*2 = []
  ∧ after (onChunk c acc).2.*2 w = w.
Proof.
  intros Hty Htext Hdone.
  destruct strictEq_type_thinking as (Hc & Hf & He).
  assert (onChunk c acc = (Continue, acc, [(acc, ConsoleLog "Received chunk:")]))
    as Hstep.
  { unfold onChunk, thinkingBranch, contentBranch, finishBranch, errorBranch.
    rewrite Hty, Htext, Hc, Hf, He, andb_false_r. simpl.
    by rewrite bool_decide_eq_false_2. }
  rewrite Hstep. done.
Qed.

Lemma empty_thinking_ignored_witness :
  onChunk (thinkingEvent []) emptyAcc
    = (Continue, emptyAcc, [(emptyAcc, ConsoleLog "Received chunk:")])
  ∧ thinkingWrites (onChunk (thinkingEvent []) emptyAcc).2.*2 = []
  ∧ pauses (onChunk (thinkingEvent []) emptyAcc).2.*2 = []
  ∧ after (onChunk (thinkingEvent []) emptyAcc).2.*2
      {| chat := initialState; isThinkingStreaming := false;
         isContentStreaming := false |}
    = {| chat := initialState; isThinkingStreaming := false;
         isContentStreaming := false |}.
Proof.
  apply (empty_thinking_ignored (thinkingEvent []) emptyAcc).
  - reflexivity.
  - reflexivity.
  - simpl. discriminate.
Defined.

(** ** The loop body, branch by branch *)

Lemma classify_Thinking c T :
  classify c = Some (Thinking T) →
  type c = Some (js "thinking") ∧ thinking_content c = Some T ∧ T ≠ [].
Proof.
  unfold classify.
  destruct (thinkingBranch c) eqn:Hb.
  - intros [= <-]. apply thinkingBranch_true in Hb as (Hty & T & HT & Hne).
    rewrite HT. done.
  - destruct (contentBranch c); [done|].
    destruct (finishBranch c); [done|]. by destruct (errorBranch c).
Qed.

Lemma classify_ContentDelta c f :
  classify c = Some (ContentDelta f) → chunk c = Some f ∧ f ≠ [].
Proof.
  unfold classify. destruct (thinkingBranch c); [done|].
  destruct (contentBranch c) eqn:Hb.
  - intros [= <-]. unfold contentBranch in Hb.
    apply andb_true_iff in Hb as [_ Hb].
    by destruct (chunk c) as [[|x f]|].
  - destruct (finishBranch c); [done|]. by destruct (errorBranch c).
Qed.

(** [onChunk], read off the kind of the frame. *)
Lemma onChunk_classify c acc :
  onChunk c acc =
  let received := (acc, ConsoleLog "Received chunk:") in
  match classify c with
  | Some (Thinking T) =>
      let acc' := {| accumulatedThinking := T;
                     accumulatedContent := accumulatedContent acc |} in
      (Continue, acc',
       received :: (acc, SetIsThinkingStreaming true)
         :: (revealSentences (sentencesOf T) [] acc).2
         ++ [(acc', UpdateLastMessage (thinkingUpdate T))])
  | Some (ContentDelta f) =>
      let acc' := {| accumulatedThinking := accumulatedThinking acc;
                     accumulatedContent := accumulatedContent acc ++ f |} in
      (Continue, acc',
       [received; (acc, SetIsThinkingStreaming false);
        (acc, SetIsContentStreaming true);
        (acc', UpdateLastMessage (contentUpdate (accumulatedContent acc ++ f)))])
  | Some Finish =>
      (Break, acc,
       [received; (acc, SetIsThinkingStreaming false);
        (acc, SetIsContentStreaming false);
        (acc, UpdateLastMessage (finalUpdate acc))])
  | Some (Error message) =>
      (Break, acc,
       [received; (acc, ConsoleError "Error chunk:");
        (acc, SetError (Some (orElse message (js "Unknown error"))))])
  | None => (Continue, acc, [received])
  end.
Proof.
  unfold onChunk, classify.
  destruct (thinkingBranch c); [simpl; by rewrite revealSentences_content|].
  destruct (contentBranch c); [done|].
  destruct (finishBranch c); [done|]. by destruct (errorBranch c).
Qed.

(** The loop over two stretches of items. *)
Lemma forAwait_app items1 items2 acc :
  forAwait (items1 ++ items2) acc =
  let first := forAwait items1 acc in
  if first.1.1 then first
  else let second := forAwait items2 first.1.2 in
       (second.1.1, second.1.2, first.2 ++ second.2).
Proof.
  revert acc. induction items1 as [|item items1 IH]; intros acc.
  { simpl. by destruct (forAwait items2 acc) as [[? ?] ?]. }
  destruct item as [c|message]; simpl.
  - destruct (onChunk c acc) as [[[] acc1] log1]; simpl; [|done].
    rewrite IH. simpl. destruct (forAwait items1 acc1) as [[[] acc2] log2]; simpl.
    + done.
    + by rewrite app_assoc.
  - rewrite IH. simpl. by destruct (forAwait items1 acc) as [[[] acc2] log2].
Qed.

(** ** The last message follows the accumulators *)

Lemma spread_thinkingUpdate m t :
  content (spread m (thinkingUpdate t)) = content m
  ∧ thinking (spread m (thinkingUpdate t)) = Some t.
Proof. done. Qed.

Lemma spread_contentUpdate m f :
  content (spread m (contentUpdate f)) = f
  ∧ thinking (spread m (contentUpdate f)) = thinking m.
Proof. done. Qed.

Lemma spread_finalUpdate m acc :
  content m = accumulatedContent acc →
  thinking m = Some (accumulatedThinking acc) →
  spread m (finalUpdate acc) = m.
Proof. destruct m as [i r c t ts]; simpl. by intros -> ->. Qed.

Lemma revealSentences_messages ss cur acc w ms m :
  messages (chat w) = ms ++ [m] →
  ∃ m', messages (chat (after (revealSentences ss cur acc).2.*2 w)) = ms ++ [m']
        ∧ content m' = content m.
Proof.
  revert cur acc w m. induction ss as [|s ss IH]; intros cur acc w m Hw.
  { by exists m. }
  cbn [revealSentences fst snd fmap list_fmap].
  rewrite after_cons, (after_update_snoc _ w ms m) by done.
  rewrite after_cons.
  edestruct (IH (cur ++ s)) as (m' & Hm' & Hc); [|exists m'; split; [exact Hm'|]].
  - simpl. reflexivity.
  - by rewrite Hc.
Qed.

Lemma Synced_other c acc w :
  touchesMessages c = false → Synced acc w → Synced acc (after [c] w).
Proof.
  intros Hc (ms & m & Hw & Hm). exists ms, m.
  by rewrite after_other_messages.
Qed.

Lemma onChunk_Synced c acc w :
  Synced acc w → Synced (onChunk c acc).1.2 (after (onChunk c acc).2.*2 w).
Proof.
  intros Hsync. rewrite onChunk_classify. cbv zeta.
  destruct (classify c) as [[T|f| |message]|]; cbn [fst snd fmap list_fmap].
  - rewrite fmap_app. peel. rewrite after_app.
    apply (Synced_other (ConsoleLog "Received chunk:")) in Hsync; [|done].
    apply (Synced_other (SetIsThinkingStreaming true)) in Hsync; [|done].
    destruct Hsync as (ms & m & Hw & Hc & Ht).
    destruct (revealSentences_messages (sentencesOf T) [] acc _ ms m Hw)
      as (m' & Hm' & Hc').
    cbn [fmap list_fmap snd].
    rewrite (after_update_snoc _ _ ms m') by done.
    exists ms, (spread m' (thinkingUpdate T)). simpl. split_and!; [done| |done].
    by rewrite Hc'.
  - peel.
    apply (Synced_other (ConsoleLog "Received chunk:")) in Hsync; [|done].
    apply (Synced_other (SetIsThinkingStreaming false)) in Hsync; [|done].
    apply (Synced_other (SetIsContentStreaming true)) in Hsync; [|done].
    destruct Hsync as (ms & m & Hw & Hc & Ht).
    rewrite (after_update_snoc _ _ ms m) by done.
    exists ms, (spread m (contentUpdate (accumulatedContent acc ++ f))).
    simpl. done.
  - peel.
    apply (Synced_other (ConsoleLog "Received chunk:")) in Hsync; [|done].
    apply (Synced_other (SetIsThinkingStreaming false)) in Hsync; [|done].
    apply (Synced_other (SetIsContentStreaming false)) in Hsync; [|done].
    destruct Hsync as (ms & m & Hw & Hc & Ht).
    rewrite (after_update_snoc _ _ ms m) by done.
    exists ms, m. rewrite spread_finalUpdate by done. done.
  - peel.
    apply (Synced_other (ConsoleLog "Received chunk:")) in Hsync; [|done].
    apply (Synced_other (ConsoleError "Error chunk:")) in Hsync; [|done].
    by apply Synced_other.
  - by apply Synced_other.
Qed.

Lemma Synced_others calls acc w :
  Forall (λ c, touchesMessages c = false) calls →
  Synced acc w → Synced acc (after calls w).
Proof.
  intros Hcalls. revert w. induction Hcalls as [|c calls Hc _ IH]; intros w Hw.
  - done.
  - rewrite after_cons. apply IH. by apply Synced_other.
Qed.

Lemma forAwait_Synced items acc w :
  Synced acc w →
  Synced (forAwait items acc).1.2 (after (forAwait items acc).2.*2 w).
Proof.
  revert acc w. induction items as [|item items IH]; intros acc w Hsync; [done|].
  destruct item as [c|message]; cbn [forAwait].
  - pose proof (onChunk_Synced c acc w Hsync) as Hstep.
    destruct (onChunk c acc) as [[[] acc1] log1]; cbn [fst snd] in *; [|done].
    rewrite fmap_app, after_app. by apply IH.
  - cbn [fst snd]. rewrite fmap_app, after_app. apply IH.
    apply Synced_others; [|done]. by repeat constructor.
Qed.

Lemma streamFrom_Synced items ending acc w :
  Synced acc w →
  Synced (streamFrom items ending acc).1 (after (streamFrom items ending acc).2.*2 w).
Proof.
  intros Hsync. unfold streamFrom. cbn [fst snd].
  rewrite !fmap_app, !after_app.
  apply Synced_others; [by repeat constructor|].
  apply Synced_others.
  - destruct (forAwait items acc).1.1; [constructor|].
    destruct ending; by repeat constructor.
  - by apply forAwait_Synced.
Qed.

(** Once the placeholder is appended, the last message and the fresh
    accumulators agree. *)
Lemma beforeStream_Synced message settings clock w :
  Synced emptyAcc
    (after (beforeStream message clock ++ [StreamChat message settings]) w).
Proof.
  exists (messages (chat w) ++ [userMessage message clock]), (assistantMessage clock).
  unfold after. simpl. by rewrite <- app_assoc.
Qed.

Lemma handleSend_split message settings clock items ending w :
  after (handleSend message settings clock items ending) w
  = after (streamFrom items ending emptyAcc).2.*2
      (after (beforeStream message clock ++ [StreamChat message settings]) w).
Proof.
  unfold handleSend. by rewrite <- after_app, <- app_assoc.
Qed.

Lemma Synced_store acc w :
  Synced acc w →
  storeContent w = accumulatedContent acc
  ∧ storeThinking w = accumulatedThinking acc.
Proof.
  intros (ms & m & Hw & Hc & Ht).
  unfold storeContent, storeThinking, lastMessage.
  rewrite Hw, last_snoc. simpl. by rewrite Hc, Ht.
Qed.

Lemma after_untouched calls w :
  Forall (λ c, touchesMessages c = false) calls →
  messages (chat (after calls w)) = messages (chat w).
Proof.
  intros Hcalls. revert w. induction Hcalls as [|c calls Hc _ IH]; intros w.
  - done.
  - rewrite after_cons, IH. by apply after_other_messages.
Qed.

(** The final update of the finish branch rewrites what is already there. *)
Lemma after_finalUpdate acc w :
  Synced acc w → after [UpdateLastMessage (finalUpdate acc)] w = w.
Proof.
  intros (ms & m & Hw & Hc & Ht).
  rewrite (after_update_snoc _ w ms m) by done.
  rewrite spread_finalUpdate by done. rewrite <- Hw.
  by rewrite withMessages_same, withChat_same.
Qed.

(** ** Frames typed "error" *)

Lemma strictEq_type_error :
  strictEq (Some (js "error")) (js "thinking") = false
  ∧ strictEq (Some (js "error")) (js "content") = false
  ∧ strictEq (Some (js "error")) (js "finish") = false
  ∧ strictEq (Some (js "error")) (js "error") = true.
Proof. by vm_compute. Qed.

Lemma classify_error_frame c :
  type c = Some (js "error") →
  classify c = if bool_decide (done c = Some true) then Some Finish
               else Some (Error (chunk c)).
Proof.
  intros Hty. destruct strictEq_type_error as (Ht & Hc & Hf & He).
  unfold classify, thinkingBranch, contentBranch, finishBranch, errorBranch.
  rewrite Hty, Ht, Hc, Hf, He. simpl. by case_bool_decide.
Qed.

(** C8, as the code has it.  An error frame (typed "error", not flagged
    done) ends the loop and hands [chunk.chunk || "Unknown error"] to
    [setError]: the carried message itself when it is non-empty, the fixed
    text "Unknown error" when it is empty or absent.  The [finally] clause
    leaves that report in place, and the messages are not touched. *)
Theorem error_event_report c acc w :
  type c = Some (js "error") → done c ≠ Some true →
  let step := onChunk c acc in
  let reported := orElse (chunk c) (js "Unknown error") in
  step.1.1 = Break
  ∧ errorReports step.2.*2 = [Some reported]
  ∧ error (chat (after (step.2 ++ finallyClause acc).*2 w)) = Some reported
  ∧ (∀ m, chunk c = Some m → m ≠ [] → reported = m)
  ∧ (truthy (chunk c) = false → reported = js "Unknown error")
  ∧ messages (chat (after (step.2 ++ finallyClause acc).*2 w)) = messages (chat w).
Proof.
  intros Hty Hdone. cbv zeta.
  rewrite onChunk_classify, classify_error_frame by done.
  rewrite bool_decide_eq_false_2 by done. cbv zeta.
  split_and!; try done.
  - intros m -> Hm. by destruct m.
  - intros Hfalsy. by destruct (chunk c) as [[|x m]|].
Qed.

Lemma error_event_report_witness :
  let step := onChunk (errorEvent (js "boom")) emptyAcc in
  let reported := orElse (chunk (errorEvent (js "boom"))) (js "Unknown error") in
  let w := {| chat := initialState; isThinkingStreaming := false;
              isContentStreaming := false |} in
  step.1.1 = Break
  ∧ errorReports step.2.*2 = [Some reported]
  ∧ error (chat (after (step.2 ++ finallyClause emptyAcc).*2 w)) = Some reported
  ∧ (∀ m, chunk (errorEvent (js "boom")) = Some m → m ≠ [] → reported = m)
  ∧ (truthy (chunk (errorEvent (js "boom"))) = false → reported = js "Unknown error")
  ∧ messages (chat (after (step.2 ++ finallyClause emptyAcc).*2 w))
    = messages (chat w).
Proof.
  apply (error_event_report (errorEvent (js "boom")) emptyAcc).
  - reflexivity.
  - simpl. discriminate.
Defined.

(** C8 as worded fails for the empty message: the sink receives
    "Unknown error", not the empty string. *)
Lemma empty_error_message_replaced :
  errorReports (onChunk (errorEvent []) emptyAcc).2.*2
    = [Some (js "Unknown error")]
  ∧ errorReports (onChunk (errorEvent []) emptyAcc).2.*2 ≠ [Some []].
Proof. split; [by vm_compute|]. vm_compute. discriminate. Qed.

(** An error frame as the backend documents it, flagged done: it takes the
    finish branch, and no error is reported. *)
Lemma done_error_frame_not_reported message acc :
  classify {| type := Some (js "error"); chunk := Some message;
              thinking_content := None; done := Some true |} = Some Finish
  ∧ errorReports
      (onChunk {| type := Some (js "error"); chunk := Some message;
                  thinking_content := None; done := Some true |} acc).2.*2 = [].
Proof.
  assert (classify {| type := Some (js "error"); chunk := Some message;
                      thinking_content := None; done := Some true |}
          = Some Finish) as Hc by (by rewrite classify_error_frame).
  split; [done|]. by rewrite onChunk_classify, Hc.
Qed.

(** ** Content frames *)

Lemma strictEq_type_content :
  strictEq (Some (js "content")) (js "thinking") = false
  ∧ strictEq (Some (js "content")) (js "content") = true
  ∧ strictEq (Some (js "content")) (js "finish") = false
  ∧ strictEq (Some (js "content")) (js "error") = false.
Proof. by vm_compute. Qed.

Lemma classify_content_frame c :
  type c = Some (js "content") → done c ≠ Some true →
  classify c = if truthy (chunk c) then Some (ContentDelta (default [] (chunk c)))
               else None.
Proof.
  intros Hty Hdone. destruct strictEq_type_content as (Ht & Hc & Hf & He).
  unfold classify, thinkingBranch, contentBranch, finishBranch, errorBranch.
  rewrite Hty, Ht, Hc, Hf, He. simpl.
  destruct (truthy (chunk c)); [done|]. by rewrite bool_decide_eq_false_2.
Qed.

Lemma onChunk_content_frame c acc :
  type c = Some (js "content") → done c ≠ Some true →
  (onChunk c acc).1.1 = Continue
  ∧ accumulatedContent (onChunk c acc).1.2
    = accumulatedContent acc ++ default [] (chunk c)
  ∧ (truthy (chunk c) = false →
     onChunk c acc = (Continue, acc, [(acc, ConsoleLog "Received chunk:")])).
Proof.
  intros Hty Hdone. rewrite onChunk_classify, classify_content_frame by done.
  destruct (chunk c) as [[|x f]|]; simpl; by rewrite ?app_nil_r.
Qed.

Lemma forAwait_content_frames cs acc :
  Forall (λ c, type c = Some (js "content") ∧ done c ≠ Some true) cs →
  (forAwait (Yield <$> cs) acc).1.1 = false
  ∧ accumulatedContent (forAwait (Yield <$> cs) acc).1.2
    = accumulatedContent acc ++ concat ((λ c, default [] (chunk c)) <$> cs).
Proof.
  intros Hcs. revert acc. induction Hcs as [|c cs [Hty Hdone] _ IH]; intros acc.
  { simpl. by rewrite app_nil_r. }
  cbn [fmap list_fmap forAwait].
  destruct (onChunk_content_frame c acc Hty Hdone) as (Hflow & Hacc & _).
  rewrite Hflow. cbn [fst snd].
  destruct (IH (onChunk c acc).1.2) as [Hb Ha].
  split; [done|]. rewrite Ha, Hacc. cbn [concat]. by rewrite app_assoc.
Qed.

(** C2.  When every frame of the stream is a content frame (typed
    "content", not flagged done) the content of the last message at the end
    of the turn is the concatenation of the fragments in order, whatever
    their sizes and however the stream ends; it is also what the content
    accumulator holds.  A frame with an empty fragment changes nothing: the
    loop goes on with the same accumulators and only logs the frame. *)
Theorem content_deltas_concatenate message settings clock ending w
    (cs : list StreamChunk) :
  Forall (λ c, type c = Some (js "content") ∧ done c ≠ Some true) cs →
  let fragments := (λ c, default [] (chunk c)) <$> cs in
  let items := Yield <$> cs in
  storeContent (after (handleSend message settings clock items ending) w)
    = concat fragments
  ∧ accumulatedContent (streamFrom items ending emptyAcc).1 = concat fragments
  ∧ (∀ c acc w', c ∈ cs → default [] (chunk c) = [] →
       onChunk c acc = (Continue, acc, [(acc, ConsoleLog "Received chunk:")])
       ∧ after (onChunk c acc).2.*2 w' = w').
Proof.
  intros Hcs. cbv zeta.
  assert (accumulatedContent (streamFrom (Yield <$> cs) ending emptyAcc).1
          = concat ((λ c, default [] (chunk c)) <$> cs)) as Hacc.
  { unfold streamFrom. cbn [fst].
    by destruct (forAwait_content_frames cs emptyAcc Hcs) as [_ ->]. }
  split_and!.
  - rewrite handleSend_split.
    pose proof (streamFrom_Synced (Yield <$> cs) ending emptyAcc _
                  (beforeStream_Synced message settings clock w)) as Hsync.
    apply Synced_store in Hsync as [-> _]. exact Hacc.
  - exact Hacc.
  - intros c acc w' Hin Hempty.
    rewrite Forall_forall in Hcs. destruct (Hcs c Hin) as [Hty Hdone].
    destruct (onChunk_content_frame c acc Hty Hdone) as (_ & _ & Hnoop).
    rewrite Hnoop; [done|]. by destruct (chunk c) as [[|x f]|].
Qed.

Lemma content_deltas_concatenate_witness :
  let cs := [contentEvent (js "Hi"); contentEvent []; contentEvent (js " there")] in
  let w := {| chat := initialState; isThinkingStreaming := false;
              isContentStreaming := false |} in
  let clock := {| userIdNow := 1; userDate := 1;
                  assistantIdNow := 2; assistantDate := 2 |} in
  let fragments := (λ c, default [] (chunk c)) <$> cs in
  let items := Yield <$> cs in
  storeContent (after (handleSend (js "q") defaultSettings clock items Exhausted) w)
    = concat fragments
  ∧ accumulatedContent (streamFrom items Exhausted emptyAcc).1 = concat fragments
  ∧ (∀ c acc w', c ∈ cs → default [] (chunk c) = [] →
       onChunk c acc = (Continue, acc, [(acc, ConsoleLog "Received chunk:")])
       ∧ after (onChunk c acc).2.*2 w' = w').
Proof.
  apply (content_deltas_concatenate (js "q") defaultSettings
           {| userIdNow := 1; userDate := 1; assistantIdNow := 2; assistantDate := 2 |}
           Exhausted
           {| chat := initialState; isThinkingStreaming := false;
              isContentStreaming := false |}
           [contentEvent (js "Hi"); contentEvent []; contentEvent (js " there")]).
  repeat constructor; simpl; discriminate.
Defined.

(** ** What the streaming part may call *)

Lemma revealSentences_faithful ss cur acc :
  Forall faithful (revealSentences ss cur acc).2.
Proof.
  revert cur acc. induction ss as [|s ss IH]; intros cur acc; simpl.
  - constructor.
  - constructor; [|constructor; [done|apply IH]].
    unfold faithful. simpl. split_and!; try done; by intros ? [= <-].
Qed.

Lemma onChunk_faithful c acc : Forall faithful (onChunk c acc).2.
Proof.
  rewrite onChunk_classify. cbv zeta.
  destruct (classify c) as [[T|f| |message]|]; cbn [snd].
  - constructor; [done|]. constructor; [done|].
    apply Forall_app. split; [apply revealSentences_faithful|].
    constructor; [|constructor].
    unfold faithful. simpl. split_and!; try done; by intros ? [= <-].
  - repeat (constructor; [done|]). constructor; [|constructor].
    unfold faithful. simpl. split_and!; try done; by intros ? [= <-].
  - repeat (constructor; [done|]). constructor; [|constructor].
    unfold faithful. simpl. split_and!; try done; by intros ? [= <-].
  - by repeat constructor.
  - by repeat constructor.
Qed.

Lemma forAwait_faithful items acc : Forall faithful (forAwait items acc).2.
Proof.
  revert acc. induction items as [|item items IH]; intros acc; [constructor|].
  destruct item as [c|message]; cbn [forAwait].
  - pose proof (onChunk_faithful c acc) as Hstep.
    destruct (onChunk c acc) as [[[] acc1] log1]; cbn [fst snd] in *; [|done].
    apply Forall_app. split; [done|apply IH].
  - cbn [snd]. apply Forall_app. split; [by repeat constructor|apply IH].
Qed.

Lemma streamFrom_faithful items ending acc :
  Forall faithful (streamFrom items ending acc).2.
Proof.
  unfold streamFrom. cbn [snd]. rewrite !Forall_app. split_and!.
  - apply forAwait_faithful.
  - destruct (forAwait items acc).1.1; [constructor|].
    destruct ending; by repeat constructor.
  - by repeat constructor.
Qed.


(** ** A cleared store stays empty *)




(** ** An error frame after partial output *)

Lemma forAwait_error_frame_messages items c acc w :
  type c = Some (js "error") → Synced acc w →
  (forAwait (items ++ [Yield c]) acc).1.1 = true
  ∧ messages (chat (after (forAwait (items ++ [Yield c]) acc).2.*2 w))
    = messages (chat (after (forAwait items acc).2.*2 w)).
Proof.
  intros Hty Hsync. rewrite forAwait_app. cbv zeta.
  pose proof (forAwait_Synced items acc w Hsync) as Hsync'.
  destruct (forAwait items acc) as [[[] acc1] log1]; cbn [fst snd] in *; [done|].
  cbn [forAwait].
  rewrite onChunk_classify, classify_error_frame by done. cbv zeta.
  case_bool_decide; cbn [fst snd]; (split; [done|]).
  - rewrite fmap_app, after_app. cbn [fmap list_fmap snd]. peel.
    rewrite after_finalUpdate; [done|].
    by repeat (apply Synced_other; [done|]).
  - rewrite fmap_app, after_app. by rewrite after_untouched by (by repeat constructor).
Qed.

(** C5.  When a frame typed "error" arrives, whatever the turn has written
    so far stays: the messages at the end of the turn are the messages as
    they stood when the frame arrived.  In the scenario of a content frame
    "X" followed by an error frame "boom", the last message ends with content
    "X" and empty thinking, [setError] has received "boom", and the turn is
    over: not streaming, no channel active. *)
Theorem error_keeps_partial_output message settings clock items c ending w :
  type c = Some (js "error") →
  (let arrived := beforeStream message clock
       ++ StreamChat message settings :: (forAwait items emptyAcc).2.*2 in
   messages (chat (after (handleSend message settings clock
                            (items ++ [Yield c]) ending) w))
   = messages (chat (after arrived w)))
  ∧ (let final := after (handleSend message settings clock
                    [Yield (contentEvent (js "X")); Yield (errorEvent (js "boom"))]
                    ending) w in
     (∃ m, lastMessage final = Some m
        ∧ content m = js "X" ∧ thinking m = Some [] ∧ role m = assistant)
     ∧ error (chat final) = Some (js "boom")
     ∧ isStreaming (chat final) = false
     ∧ isThinkingStreaming final = false
     ∧ isContentStreaming final = false).
Proof.
  intros Hty. split.
  - cbv zeta. rewrite handleSend_split.
    replace (beforeStream message clock
               ++ StreamChat message settings :: (forAwait items emptyAcc).2.*2)
      with ((beforeStream message clock ++ [StreamChat message settings])
               ++ (forAwait items emptyAcc).2.*2)
      by (by rewrite <- app_assoc).
    rewrite (after_app (_ ++ [_])).
    pose proof (beforeStream_Synced message settings clock w) as Hsync.
    destruct (forAwait_error_frame_messages items c emptyAcc _ Hty Hsync)
      as [Hbroke Hsame].
    unfold streamFrom. cbn [snd]. rewrite Hbroke. cbn [app].
    rewrite fmap_app, after_app.
    rewrite after_untouched by (by repeat constructor). exact Hsame.
  - cbv zeta. rewrite handleSend_split.
    set (w1 := after (beforeStream message clock ++ [StreamChat message settings]) w).
    assert (messages (chat w1)
            = (messages (chat w) ++ [userMessage message clock])
                ++ [assistantMessage clock]) as Hw1.
    { unfold w1, after. simpl. by rewrite <- app_assoc. }
    assert ((streamFrom [Yield (contentEvent (js "X")); Yield (errorEvent (js "boom"))]
               ending emptyAcc).2.*2
            = [ConsoleLog "Received chunk:"; SetIsThinkingStreaming false;
               SetIsContentStreaming true;
               UpdateLastMessage (contentUpdate (js "X"));
               ConsoleLog "Received chunk:"; ConsoleError "Error chunk:";
               SetError (Some (js "boom"));
               SetStreaming false; SetIsThinkingStreaming false;
               SetIsContentStreaming false]) as -> by (by vm_compute).
    peel.
    set (w2 := after [SetIsContentStreaming true]
                 (after [SetIsThinkingStreaming false]
                    (after [ConsoleLog "Received chunk:"] w1))).
    assert (messages (chat w2) = messages (chat w1)) as Hw2 by done.
    rewrite Hw1 in Hw2.
    rewrite (after_update_snoc _ w2 _ _ Hw2).
    split_and!; try done.
    exists (spread (assistantMessage clock) (contentUpdate (js "X"))).
    split; [|done].
    unfold lastMessage, after. simpl. apply last_snoc.
Qed.

Lemma error_keeps_partial_output_witness :
  let message := js "q" in
  let settings := defaultSettings in
  let clock := {| userIdNow := 1; userDate := 1;
                  assistantIdNow := 2; assistantDate := 2 |} in
  let items := [Yield (thinkingEvent (js "A. B.")); Yield (contentEvent (js "Hi"))] in
  let c := errorEvent (js "boom") in
  let ending := Exhausted in
  let w := {| chat := initialState; isThinkingStreaming := false;
              isContentStreaming := false |} in
  (let arrived := beforeStream message clock
       ++ StreamChat message settings :: (forAwait items emptyAcc).2.*2 in
   messages (chat (after (handleSend message settings clock
                            (items ++ [Yield c]) ending) w))
   = messages (chat (after arrived w)))
  ∧ (let final := after (handleSend message settings clock
                    [Yield (contentEvent (js "X")); Yield (errorEvent (js "boom"))]
                    ending) w in
     (∃ m, lastMessage final = Some m
        ∧ content m = js "X" ∧ thinking m = Some [] ∧ role m = assistant)
     ∧ error (chat final) = Some (js "boom")
     ∧ isStreaming (chat final) = false
     ∧ isThinkingStreaming final = false
     ∧ isContentStreaming final = false).
Proof.
  apply (error_keeps_partial_output (js "q") defaultSettings
           {| userIdNow := 1; userDate := 1; assistantIdNow := 2; assistantDate := 2 |}
           [Yield (thinkingEvent (js "A. B.")); Yield (contentEvent (js "Hi"))]
           (errorEvent (js "boom")) Exhausted
           {| chat := initialState; isThinkingStreaming := false;
              isContentStreaming := false |}).
  reflexivity.
Defined.

(** ** The end of a turn *)

Lemma after_finallyClause acc w :
  isStreaming (chat (after (finallyClause acc).*2 w)) = false
  ∧ isThinkingStreaming (after (finallyClause acc).*2 w) = false
  ∧ isContentStreaming (after (finallyClause acc).*2 w) = false.
Proof. done. Qed.

(** The [finally] clause forgets the channel flags it finds. *)
Lemma after_finallyClause_flags acc s flag1 flag2 flag1' flag2' :
  after (finallyClause acc).*2
    {| chat := s; isThinkingStreaming := flag1; isContentStreaming := flag2 |}
  = after (finallyClause acc).*2
      {| chat := s; isThinkingStreaming := flag1'; isContentStreaming := flag2' |}.
Proof. done. Qed.

Lemma streamFrom_ends items ending acc w :
  let final := after (streamFrom items ending acc).2.*2 w in
  isStreaming (chat final) = false
  ∧ isThinkingStreaming final = false
  ∧ isContentStreaming final = false.
Proof.
  cbv zeta. unfold streamFrom. cbn [snd].
  rewrite app_assoc, fmap_app, after_app. apply after_finallyClause.
Qed.

(** The calls of the finish branch, on a world whose last message already
    holds the accumulators, only lower the two channel flags. *)
Lemma after_finish_branch acc w :
  Synced acc w →
  after [ConsoleLog "Received chunk:"; SetIsThinkingStreaming false;
         SetIsContentStreaming false; UpdateLastMessage (finalUpdate acc)] w
  = {| chat := chat w; isThinkingStreaming := false; isContentStreaming := false |}.
Proof.
  intros Hsync. peel. apply after_finalUpdate.
  by repeat (apply Synced_other; [done|]).
Qed.

Lemma streamFrom_finish items fin acc w :
  classify fin = Some Finish → Synced acc w →
  (streamFrom (items ++ [Yield fin]) Exhausted acc).1
    = (streamFrom items Exhausted acc).1
  ∧ after (streamFrom (items ++ [Yield fin]) Exhausted acc).2.*2 w
    = after (streamFrom items Exhausted acc).2.*2 w.
Proof.
  intros Hfin Hsync. unfold streamFrom. rewrite forAwait_app. cbv zeta.
  pose proof (forAwait_Synced items acc w Hsync) as Hsync'.
  destruct (forAwait items acc) as [[[] acc1] log1]; cbn [fst snd] in *; [done|].
  cbn [forAwait]. rewrite onChunk_classify, Hfin. cbn [fst snd app].
  split; [done|].
  rewrite !fmap_app, !after_app.
  cbn [fmap list_fmap snd]. rewrite after_finish_branch by done.
  destruct (after log1.*2 w) as [s flag1 flag2]. cbn [chat].
  apply after_finallyClause_flags.
Qed.

(** C4.  A stream that runs out without a finish frame leaves the same
    world (store and channel flags) as the same stream followed by a finish
    frame.  In that world the last message holds the content and thinking
    accumulators, the store is no longer streaming, and neither channel flag
    is set. *)
Theorem exhaustion_like_finish message settings clock items fin w :
  classify fin = Some Finish →
  let quiet := handleSend message settings clock items Exhausted in
  let explicit := handleSend message settings clock (items ++ [Yield fin]) Exhausted in
  let acc := (streamFrom items Exhausted emptyAcc).1 in
  after quiet w = after explicit w
  ∧ (streamFrom (items ++ [Yield fin]) Exhausted emptyAcc).1 = acc
  ∧ (∃ m, lastMessage (after quiet w) = Some m
       ∧ content m = accumulatedContent acc
       ∧ thinking m = Some (accumulatedThinking acc))
  ∧ isStreaming (chat (after quiet w)) = false
  ∧ isThinkingStreaming (after quiet w) = false
  ∧ isContentStreaming (after quiet w) = false.
Proof.
  intros Hfin. cbv zeta. rewrite !handleSend_split.
  pose proof (beforeStream_Synced message settings clock w) as Hsync.
  destruct (streamFrom_finish items fin emptyAcc _ Hfin Hsync) as [Hacc Hworld].
  split_and!.
  - by rewrite Hworld.
  - exact Hacc.
  - destruct (streamFrom_Synced items Exhausted emptyAcc _ Hsync)
      as (ms & m & Hw & Hc & Ht).
    exists m. unfold lastMessage. by rewrite Hw, last_snoc.
  - apply streamFrom_ends.
  - apply streamFrom_ends.
  - apply streamFrom_ends.
Qed.

Lemma exhaustion_like_finish_witness :
  let message := js "q" in
  let settings := defaultSettings in
  let clock := {| userIdNow := 1; userDate := 1;
                  assistantIdNow := 2; assistantDate := 2 |} in
  let items := [Yield (thinkingEvent (js "A. B.")); Yield (contentEvent (js "Hi"));
                Yield (contentEvent (js " there"))] in
  let w := {| chat := initialState; isThinkingStreaming := false;
              isContentStreaming := false |} in
  let quiet := handleSend message settings clock items Exhausted in
  let explicit :=
    handleSend message settings clock (items ++ [Yield finishEvent]) Exhausted in
  let acc := (streamFrom items Exhausted emptyAcc).1 in
  after quiet w = after explicit w
  ∧ (streamFrom (items ++ [Yield finishEvent]) Exhausted emptyAcc).1 = acc
  ∧ (∃ m, lastMessage (after quiet w) = Some m
       ∧ content m = accumulatedContent acc
       ∧ thinking m = Some (accumulatedThinking acc))
  ∧ isStreaming (chat (after quiet w)) = false
  ∧ isThinkingStreaming (after quiet w) = false
  ∧ isContentStreaming (after quiet w) = false.
Proof.
  apply (exhaustion_like_finish (js "q") defaultSettings
           {| userIdNow := 1; userDate := 1; assistantIdNow := 2; assistantDate := 2 |}
           [Yield (thinkingEvent (js "A. B.")); Yield (contentEvent (js "Hi"));
            Yield (contentEvent (js " there"))]
           finishEvent
           {| chat := initialState; isThinkingStreaming := false;
              isContentStreaming := false |}).
  reflexivity.
Defined.

(** ** Chains *)

Section Chains.
Context {A : Type} (R : relation A) `{!PreOrder R}.

Lemma chainFrom_weaken x y l : R x y → chainFrom R y l → chainFrom R x l.
Proof.
  destruct l as [|z l]; simpl; [done|].
  intros Hxy [Hyz Hl]. split; [by etrans|done].
Qed.

(** A chain from [x] through [l1] to [y], followed by one from [y]. *)
Lemma chainFrom_join x l1 y l2 :
  chainFrom R x (l1 ++ [y]) → chainFrom R y l2 → chainFrom R x (l1 ++ l2).
Proof.
  revert x. induction l1 as [|z l1 IH]; intros x; simpl.
  - intros [Hxy _] Hl2. by eapply chainFrom_weaken.
  - intros [Hxz Hl1] Hl2. split; [done|]. by apply IH.
Qed.

Lemma chainFrom_app_l x l1 l2 : chainFrom R x (l1 ++ l2) → chainFrom R x l1.
Proof.
  revert x. induction l1 as [|z l1 IH]; intros x; simpl; [done|].
  intros [Hxz Hl]. split; [done|]. by apply IH.
Qed.

Lemma chainFrom_first x l i a : chainFrom R x l → l !! i = Some a → R x a.
Proof.
  revert x i. induction l as [|z l IH]; intros x i; [done|].
  simpl. intros [Hxz Hl]. destruct i as [|i]; simpl.
  - by intros [= <-].
  - intros Ha. etrans; [exact Hxz|]. by eapply IH.
Qed.

Lemma chainFrom_lookup x l i j a b :
  chainFrom R x l → i ≤ j → l !! i = Some a → l !! j = Some b → R a b.
Proof.
  revert x i j. induction l as [|z l IH]; intros x i j; [done|].
  simpl. intros [Hxz Hl] Hij. destruct i as [|i]; simpl.
  - intros [= <-]. destruct j as [|j]; simpl.
    + by intros [= <-].
    + intros Hb. by eapply chainFrom_first.
  - destruct j as [|j]; [lia|]. simpl. apply (IH z). done. lia.
Qed.
End Chains.

Lemma chainFrom_same {A B : Type} (R : relation B) `{!Reflexive R}
    (f : A → B) (x : A) (l : list A) :
  Forall (λ y, f y = f x) l → chainFrom (λ a b, R (f a) (f b)) x l.
Proof.
  intros Hl. revert x Hl. induction l as [|y l IH]; intros x Hl; simpl; [done|].
  pose proof (Forall_inv Hl) as Hy. pose proof (Forall_inv_tail Hl) as Hl'.
  split; [by rewrite Hy|]. apply IH.
  eapply Forall_impl; [exact Hl'|]. simpl. intros z Hz. by rewrite Hz, Hy.
Qed.

Lemma chainFrom_impl {A : Type} (R1 R2 : relation A) x l :
  (∀ a b, R1 a b → R2 a b) → chainFrom R1 x l → chainFrom R2 x l.
Proof.
  intros H12. revert x. induction l as [|y l IH]; intros x; simpl; [done|].
  intros [Hxy Hl]. split; [by apply H12|by apply IH].
Qed.

(** ** The accumulators along a turn: content *)

Local Instance contentGrows_preorder : PreOrder contentGrows.
Proof.
  split.
  - by intros a.
  - intros a b c Hab Hbc. by etrans.
Qed.

Lemma revealSentences_same_content ss cur acc :
  Forall (λ a, accumulatedContent a = accumulatedContent acc)
    (revealSentences ss cur acc).2.*1.
Proof.
  revert cur acc. induction ss as [|s ss IH]; intros cur acc; simpl.
  - constructor.
  - constructor; [done|]. constructor; [done|].
    eapply Forall_impl; [apply IH|]. done.
Qed.

Lemma onChunk_content_chain c acc :
  chainFrom contentGrows acc ((onChunk c acc).2.*1 ++ [(onChunk c acc).1.2]).
Proof.
  rewrite onChunk_classify. cbv zeta.
  destruct (classify c) as [[T|f| |message]|]; cbn [fst snd fmap list_fmap app].
  - apply (chainFrom_same prefix accumulatedContent).
    constructor; [done|]. constructor; [done|].
    rewrite fmap_app. rewrite <- app_assoc. apply Forall_app. split.
    + apply revealSentences_same_content.
    + by repeat constructor.
  - simpl. split_and!; try done; by apply prefix_app_r.
  - simpl. done.
  - simpl. done.
  - simpl. done.
Qed.

Lemma forAwait_content_chain items acc :
  chainFrom contentGrows acc
    ((forAwait items acc).2.*1 ++ [(forAwait items acc).1.2]).
Proof.
  revert acc. induction items as [|item items IH]; intros acc; [by simpl|].
  destruct item as [c|message]; cbn [forAwait].
  - pose proof (onChunk_content_chain c acc) as Hstep.
    destruct (onChunk c acc) as [[[] acc1] log1]; cbn [fst snd] in *; [|done].
    rewrite fmap_app, <- app_assoc.
    eapply (chainFrom_join contentGrows); [exact Hstep|apply IH].
  - cbn [fst snd]. rewrite fmap_app, <- app_assoc. simpl. by split_and!.
Qed.

Lemma streamFrom_content_chain items ending acc :
  chainFrom contentGrows acc (streamFrom items ending acc).2.*1.
Proof.
  unfold streamFrom. cbn [snd]. rewrite fmap_app.
  eapply (chainFrom_join contentGrows); [apply forAwait_content_chain|].
  rewrite fmap_app. apply (chainFrom_same prefix accumulatedContent).
  apply Forall_app. split; [|by repeat constructor].
  destruct (forAwait items acc).1.1; [constructor|].
  destruct ending; by repeat constructor.
Qed.

(** ** The accumulators along a turn: thinking *)

Lemma onChunk_same_thinking c acc :
  (∀ T, classify c ≠ Some (Thinking T)) →
  accumulatedThinking (onChunk c acc).1.2 = accumulatedThinking acc
  ∧ Forall (λ a, accumulatedThinking a = accumulatedThinking acc)
      (onChunk c acc).2.*1.
Proof.
  intros Hc. rewrite onChunk_classify. cbv zeta.
  destruct (classify c) as [[T|f| |message]|]; cbn [fst snd fmap list_fmap].
  - by destruct (Hc T).
  - split; [done|]. by repeat constructor.
  - split; [done|]. by repeat constructor.
  - split; [done|]. by repeat constructor.
  - split; [done|]. by repeat constructor.
Qed.

Section ThinkingChain.
(** An order on texts in which a text is below all its extensions; length
    comparison is the instance used. *)
Context (R : relation jsstring) `{!PreOrder R}.
Hypothesis R_extend : ∀ x y, R x (x ++ y).

Let thinkingGrows : relation Acc :=
  λ a b, R (accumulatedThinking a) (accumulatedThinking b).

(** A thinking text [T] may come after the accumulated text [x]: the first
    sentence of [T], with which its reveal starts, is not below [x]; and the
    sentences of [T] glued together are below [T]. *)
Let follows : relation jsstring :=
  λ x T, R x (default [] (head (sentencesOf T))) ∧ R (concat (sentencesOf T)) T.

Local Instance thinkingGrows_preorder : PreOrder thinkingGrows.
Proof.
  split.
  - intros a. unfold thinkingGrows. done.
  - intros a b c Hab Hbc. unfold thinkingGrows in *. by etrans.
Qed.

Lemma revealSentences_thinking_chain ss cur acc accT :
  R (accumulatedThinking acc) cur →
  R (cur ++ concat ss) (accumulatedThinking accT) →
  chainFrom thinkingGrows acc ((revealSentences ss cur acc).2.*1 ++ [accT]).
Proof.
  revert cur acc. induction ss as [|s ss IH]; intros cur acc Hacc HT.
  - simpl. split; [|done]. unfold thinkingGrows.
    etrans; [exact Hacc|]. simpl in HT. by rewrite app_nil_r in HT.
  - cbn [revealSentences fst snd fmap list_fmap app].
    assert (R (accumulatedThinking acc) (cur ++ s)) as Hstep.
    { etrans; [exact Hacc|]. apply R_extend. }
    cbn [chainFrom]. split_and!.
    + exact Hstep.
    + unfold thinkingGrows. done.
    + apply IH.
      * simpl. done.
      * simpl in HT. by rewrite app_assoc in HT.
Qed.

Lemma onChunk_thinking_chain c acc :
  (∀ T, classify c = Some (Thinking T) → follows (accumulatedThinking acc) T) →
  chainFrom thinkingGrows acc ((onChunk c acc).2.*1 ++ [(onChunk c acc).1.2]).
Proof.
  intros Hc.
  destruct (classify c) as [[T| | |]|] eqn:Hk.
  - destruct (Hc T eq_refl) as [Hfirst Hgood].
    rewrite onChunk_classify, Hk. cbv zeta.
    destruct (sentencesOf T) as [|s ss] eqn:Hss;
      [by destruct (sentencesOf_not_nil T)|].
    cbn [revealSentences fst snd fmap list_fmap app chainFrom].
    split_and!; [done|done| |done|].
    + exact Hfirst.
    + rewrite fmap_app, <- app_assoc. cbn [fmap list_fmap fst app].
      eapply (chainFrom_join thinkingGrows);
        [|split; [reflexivity|split; [reflexivity|exact I]]].
      apply revealSentences_thinking_chain.
      * simpl. reflexivity.
      * simpl. simpl in Hgood. exact Hgood.
  - destruct (onChunk_same_thinking c acc) as [Hacc Hall];
      [intros T; by rewrite Hk|].
    apply (chainFrom_same R accumulatedThinking).
    apply Forall_app. split; [done|]. by repeat constructor.
  - destruct (onChunk_same_thinking c acc) as [Hacc Hall];
      [intros T; by rewrite Hk|].
    apply (chainFrom_same R accumulatedThinking).
    apply Forall_app. split; [done|]. by repeat constructor.
  - destruct (onChunk_same_thinking c acc) as [Hacc Hall];
      [intros T; by rewrite Hk|].
    apply (chainFrom_same R accumulatedThinking).
    apply Forall_app. split; [done|]. by repeat constructor.
  - destruct (onChunk_same_thinking c acc) as [Hacc Hall];
      [intros T; by rewrite Hk|].
    apply (chainFrom_same R accumulatedThinking).
    apply Forall_app. split; [done|]. by repeat constructor.
Qed.

(** Every thinking text may come after what is accumulated when it arrives. *)
Lemma forAwait_thinking_chain items acc :
  chainFrom follows (accumulatedThinking acc) (thinkingTexts items) →
  chainFrom thinkingGrows acc
    ((forAwait items acc).2.*1 ++ [(forAwait items acc).1.2]).
Proof.
  revert acc. induction items as [|item items IH]; intros acc Hitems.
  { simpl. split; [|done]. unfold thinkingGrows. done. }
  destruct item as [c|message]; cbn [forAwait].
  - assert (chainFrom thinkingGrows acc
              ((onChunk c acc).2.*1 ++ [(onChunk c acc).1.2])
            ∧ chainFrom follows (accumulatedThinking (onChunk c acc).1.2)
                (thinkingTexts items)) as [Hstep Hrest].
    { unfold thinkingTexts in Hitems. cbn [omap list_omap] in Hitems.
      fold (thinkingTexts items) in Hitems.
      destruct (classify c) as [[T| | |]|] eqn:Hk.
      - cbn [chainFrom] in Hitems. destruct Hitems as [Hfirst Hitems].
        split.
        + apply onChunk_thinking_chain. intros T' HT'.
          rewrite Hk in HT'. injection HT' as <-. exact Hfirst.
        + rewrite onChunk_classify, Hk. exact Hitems.
      - destruct (onChunk_same_thinking c acc) as [Hacc _];
          [intros T; by rewrite Hk|].
        split; [|by rewrite Hacc].
        apply onChunk_thinking_chain. intros T HT. by rewrite Hk in HT.
      - destruct (onChunk_same_thinking c acc) as [Hacc _];
          [intros T; by rewrite Hk|].
        split; [|by rewrite Hacc].
        apply onChunk_thinking_chain. intros T HT. by rewrite Hk in HT.
      - destruct (onChunk_same_thinking c acc) as [Hacc _];
          [intros T; by rewrite Hk|].
        split; [|by rewrite Hacc].
        apply onChunk_thinking_chain. intros T HT. by rewrite Hk in HT.
      - destruct (onChunk_same_thinking c acc) as [Hacc _];
          [intros T; by rewrite Hk|].
        split; [|by rewrite Hacc].
        apply onChunk_thinking_chain. intros T HT. by rewrite Hk in HT. }
    specialize (IH (onChunk c acc).1.2 Hrest).
    destruct (onChunk c acc) as [[[] acc1] log1]; cbn [fst snd] in *; [|done].
    rewrite fmap_app, <- app_assoc.
    eapply (chainFrom_join thinkingGrows); [exact Hstep|exact IH].
  - cbn [fst snd]. rewrite fmap_app, <- app_assoc.
    specialize (IH acc Hitems).
    cbn [onStreamError fmap list_fmap fst app chainFrom].
    unfold thinkingGrows at 1 2 3. by split_and!.
Qed.

Lemma streamFrom_thinking_chain items ending acc :
  chainFrom follows (accumulatedThinking acc) (thinkingTexts items) →
  chainFrom thinkingGrows acc (streamFrom items ending acc).2.*1.
Proof.
  intros Hitems. unfold streamFrom. cbn [snd]. rewrite fmap_app.
  eapply (chainFrom_join thinkingGrows);
    [by apply forAwait_thinking_chain|].
  rewrite fmap_app. apply (chainFrom_same R accumulatedThinking).
  apply Forall_app. split; [|by repeat constructor].
  destruct (forAwait items acc).1.1; [constructor|].
  destruct ending; by repeat constructor.
Qed.
End ThinkingChain.

(** ** What a reader of the store sees along a turn *)

Section StoreFollows.
(** One text field, as held by the accumulators ([proj]), as read from the
    last message ([view]), and as carried by an update ([carried]). *)
Context (proj : Acc → jsstring) (view : World → jsstring)
        (carried : Updates → option jsstring).
Context (R : relation jsstring) `{!PreOrder R}.
Hypothesis view_other :
  ∀ c w, touchesMessages c = false → view (after [c] w) = view w.
Hypothesis view_update :
  ∀ u w, view (after [UpdateLastMessage u] w) = view w
         ∨ carried u = Some (view (after [UpdateLastMessage u] w)).
Hypothesis carried_faithful :
  ∀ acc u x, faithful (acc, UpdateLastMessage u) → carried u = Some x →
             x = proj acc.

Lemma store_follows (log : Log) a0 w :
  Forall faithful log →
  chainFrom (λ a b, R (proj a) (proj b)) a0 log.*1 →
  R (view w) (proj a0) →
  (∀ k, R (view (after (take k log.*2) w)) (view (after log.*2 w)))
  ∧ R (view (after log.*2 w)) (proj (default a0 (last log.*1))).
Proof.
  revert a0 w. induction log as [|[a c] log IH]; intros a0 w Hlog Hchain Hw.
  { split; [|done]. intros k. simpl. by destruct k. }
  pose proof (Forall_inv Hlog) as He. pose proof (Forall_inv_tail Hlog) as Hlog'.
  cbn [fmap list_fmap fst snd chainFrom] in *. destruct Hchain as [Ha0 Hchain].
  assert (R (view w) (view (after [c] w)) ∧ R (view (after [c] w)) (proj a))
    as [Hstep Hnow].
  { assert (R (view w) (proj a)) as Hwa by (by etrans).
    destruct c; try (by destruct He);
      try (rewrite view_other by done; by split).
    destruct (view_update updates w) as [->|Hcarried]; [by split|].
    apply (carried_faithful a) in Hcarried; [|done].
    rewrite Hcarried. by split. }
  destruct (IH a (after [c] w) Hlog' Hchain Hnow) as [Hall Hlast].
  split.
  - intros [|k]; cbn [take].
    + rewrite after_nil, after_cons. etrans; [exact Hstep|]. apply (Hall 0).
    + rewrite (after_cons c (take k log.*2)), (after_cons c log.*2). apply Hall.
  - rewrite after_cons, last_cons. by destruct (last log.*1).
Qed.
End StoreFollows.

Lemma storeContent_other c w :
  touchesMessages c = false → storeContent (after [c] w) = storeContent w.
Proof.
  intros Hc. unfold storeContent, lastMessage. by rewrite after_other_messages.
Qed.

Lemma storeThinking_other c w :
  touchesMessages c = false → storeThinking (after [c] w) = storeThinking w.
Proof.
  intros Hc. unfold storeThinking, lastMessage. by rewrite after_other_messages.
Qed.

Lemma storeContent_update u w :
  storeContent (after [UpdateLastMessage u] w) = storeContent w
  ∨ upd_content u = Some (storeContent (after [UpdateLastMessage u] w)).
Proof.
  destruct (messages (chat w)) as [|m0 ms0] eqn:Hw using rev_ind.
  - left. by rewrite after_update_empty.
  - clear IHms0. rewrite (after_update_snoc u w ms0 m0) by done.
    unfold storeContent, lastMessage. cbn [chat withChat messages withMessages].
    rewrite Hw, !last_snoc. simpl.
    destruct (upd_content u); [by right|by left].
Qed.

Lemma storeThinking_update u w :
  storeThinking (after [UpdateLastMessage u] w) = storeThinking w
  ∨ upd_thinking u = Some (storeThinking (after [UpdateLastMessage u] w)).
Proof.
  destruct (messages (chat w)) as [|m0 ms0] eqn:Hw using rev_ind.
  - left. by rewrite after_update_empty.
  - clear IHms0. rewrite (after_update_snoc u w ms0 m0) by done.
    unfold storeThinking, lastMessage. cbn [chat withChat messages withMessages].
    rewrite Hw, !last_snoc. simpl.
    destruct (upd_thinking u); [by right|by left].
Qed.

Lemma faithful_content acc u x :
  faithful (acc, UpdateLastMessage u) → upd_content u = Some x →
  x = accumulatedContent acc.
Proof. intros (_ & _ & _ & _ & Hc) Hu. by apply Hc. Qed.

Lemma faithful_thinking acc u x :
  faithful (acc, UpdateLastMessage u) → upd_thinking u = Some x →
  x = accumulatedThinking acc.
Proof. intros (_ & _ & _ & Ht & _) Hu. by apply Ht. Qed.

Local Instance shorter_preorder :
  PreOrder (λ a b : jsstring, length a ≤ length b).
Proof. split; [intros a; lia|intros a b c; lia]. Qed.

(** ** Thinking texts that extend one another *)

Lemma revealSentences_below ss cur acc F :
  cur ++ concat ss `prefix_of` F →
  Forall (λ a, accumulatedThinking a `prefix_of` F)
    (revealSentences ss cur acc).2.*1.
Proof.
  revert cur acc. induction ss as [|s ss IH]; intros cur acc HF.
  - constructor.
  - cbn [revealSentences fst snd fmap list_fmap].
    simpl in HF. rewrite app_assoc in HF.
    assert (cur ++ s `prefix_of` F) as Hs.
    { etrans; [|exact HF]. by apply prefix_app_r. }
    constructor; [exact Hs|]. constructor; [exact Hs|]. by apply IH.
Qed.

(** The calls of the sentence loop do not depend on the accumulators it is
    entered with. *)
Lemma revealSentences_calls ss cur acc acc' :
  (revealSentences ss cur acc).2.*2 = (revealSentences ss cur acc').2.*2.
Proof.
  revert cur acc acc'. induction ss as [|s ss IH]; intros cur acc acc'; [done|].
  cbn [revealSentences fst snd fmap list_fmap accumulatedThinking].
  do 2 f_equal. apply IH.
Qed.

Lemma onChunk_below c acc :
  (∀ T, classify c = Some (Thinking T) →
        startsPlain T ∧ accumulatedThinking acc `prefix_of` T) →
  accumulatedThinking acc `prefix_of` accumulatedThinking (onChunk c acc).1.2
  ∧ Forall (λ a, accumulatedThinking a
                   `prefix_of` accumulatedThinking (onChunk c acc).1.2)
      (onChunk c acc).2.*1.
Proof.
  intros Hc. destruct (classify c) as [[T| | |]|] eqn:Hk.
  - destruct (Hc T eq_refl) as [Hplain Hacc].
    rewrite onChunk_classify, Hk. cbv zeta.
    cbn [fst snd fmap list_fmap accumulatedThinking].
    split; [exact Hacc|].
    constructor; [exact Hacc|]. constructor; [exact Hacc|].
    rewrite fmap_app. apply Forall_app. split.
    + apply revealSentences_below. simpl. by apply sentencesOf_concat.
    + by repeat constructor.
  - destruct (onChunk_same_thinking c acc) as [Hacc Hall];
      [intros T; by rewrite Hk|].
    rewrite Hacc. split; [done|].
    eapply Forall_impl; [exact Hall|]. by intros a ->.
  - destruct (onChunk_same_thinking c acc) as [Hacc Hall];
      [intros T; by rewrite Hk|].
    rewrite Hacc. split; [done|].
    eapply Forall_impl; [exact Hall|]. by intros a ->.
  - destruct (onChunk_same_thinking c acc) as [Hacc Hall];
      [intros T; by rewrite Hk|].
    rewrite Hacc. split; [done|].
    eapply Forall_impl; [exact Hall|]. by intros a ->.
  - destruct (onChunk_same_thinking c acc) as [Hacc Hall];
      [intros T; by rewrite Hk|].
    rewrite Hacc. split; [done|].
    eapply Forall_impl; [exact Hall|]. by intros a ->.
Qed.

(** When every thinking text is a prefix of the next, everything the
    thinking accumulator holds along the loop is a prefix of what it holds
    when the loop is left. *)
Lemma forAwait_below items acc :
  Forall startsPlain (thinkingTexts items) →
  chainFrom prefix (accumulatedThinking acc) (thinkingTexts items) →
  accumulatedThinking acc `prefix_of` accumulatedThinking (forAwait items acc).1.2
  ∧ Forall (λ a, accumulatedThinking a
                   `prefix_of` accumulatedThinking (forAwait items acc).1.2)
      (forAwait items acc).2.*1.
Proof.
  revert acc. induction items as [|item items IH]; intros acc Hplain Hchain.
  { simpl. split; [done|constructor]. }
  destruct item as [c|message]; cbn [forAwait].
  - assert ((∀ T, classify c = Some (Thinking T) →
                  startsPlain T ∧ accumulatedThinking acc `prefix_of` T)
            ∧ Forall startsPlain (thinkingTexts items)
            ∧ chainFrom prefix (accumulatedThinking (onChunk c acc).1.2)
                (thinkingTexts items)) as (Hc & Hplain' & Hchain').
    { unfold thinkingTexts in Hplain, Hchain.
      cbn [omap list_omap] in Hplain, Hchain.
      fold (thinkingTexts items) in Hplain, Hchain.
      destruct (classify c) as [[T| | |]|] eqn:Hk.
      - cbn [chainFrom] in Hchain. destruct Hchain as [Hfirst Hchain].
        split_and!.
        + intros T' [= <-]. split; [exact (Forall_inv Hplain)|exact Hfirst].
        + exact (Forall_inv_tail Hplain).
        + rewrite onChunk_classify, Hk. exact Hchain.
      - destruct (onChunk_same_thinking c acc) as [Hacc _];
          [intros T; by rewrite Hk|].
        split_and!; [done|done|by rewrite Hacc].
      - destruct (onChunk_same_thinking c acc) as [Hacc _];
          [intros T; by rewrite Hk|].
        split_and!; [done|done|by rewrite Hacc].
      - destruct (onChunk_same_thinking c acc) as [Hacc _];
          [intros T; by rewrite Hk|].
        split_and!; [done|done|by rewrite Hacc].
      - destruct (onChunk_same_thinking c acc) as [Hacc _];
          [intros T; by rewrite Hk|].
        split_and!; [done|done|by rewrite Hacc]. }
    destruct (onChunk_below c acc Hc) as [Hacc Hstep].
    destruct (IH (onChunk c acc).1.2 Hplain' Hchain') as [Hacc' Hrest].
    destruct (onChunk c acc) as [[[] acc1] log1]; cbn [fst snd] in *.
    + split; [by etrans|]. rewrite fmap_app. apply Forall_app. split; [|done].
      eapply Forall_impl; [exact Hstep|]. simpl. intros a Ha. by etrans.
    + by split.
  - destruct (IH acc Hplain Hchain) as [Hacc Hrest].
    cbn [fst snd]. split; [done|].
    rewrite fmap_app. apply Forall_app. split; [|done].
    by repeat constructor.
Qed.

Lemma streamFrom_below items ending acc :
  Forall startsPlain (thinkingTexts items) →
  chainFrom prefix (accumulatedThinking acc) (thinkingTexts items) →
  accumulatedThinking acc
    `prefix_of` accumulatedThinking (streamFrom items ending acc).1
  ∧ Forall (λ a, accumulatedThinking a
                   `prefix_of` accumulatedThinking (streamFrom items ending acc).1)
      (streamFrom items ending acc).2.*1.
Proof.
  intros Hplain Hchain.
  destruct (forAwait_below items acc Hplain Hchain) as [Hacc Hall].
  unfold streamFrom. cbn [fst snd]. split; [done|].
  rewrite !fmap_app. apply Forall_app. split; [done|].
  apply Forall_app. split; [|by repeat constructor].
  destruct (forAwait items acc).1.1; [constructor|].
  destruct ending; by repeat constructor.
Qed.

(** Below a bound: a relation every list of bounded elements is a chain
    for. *)
Local Instance bounded_preorder (F : jsstring) :
  PreOrder (λ x y : jsstring, y `prefix_of` F → x `prefix_of` F).
Proof. split; [by intros x|]. intros x y z Hxy Hyz Hz. auto. Qed.

Lemma chainFrom_bounded {A : Type} (P : A → Prop) x l :
  P x → Forall P l → chainFrom (λ a b, P b → P a) x l.
Proof.
  intros Hx Hl. revert x Hx. induction Hl as [|y l Hy _ IH]; intros x Hx.
  - done.
  - split; [done|]. by apply IH.
Qed.

(** With at most one thinking frame there is nothing for a thinking text to
    come after. *)
Lemma one_thinking_text (R : relation jsstring) x items :
  length (thinkingTexts items) ≤ 1 →
  (∀ T, R x T) →
  chainFrom R x (thinkingTexts items).
Proof.
  intros Hlen Hx. destruct (thinkingTexts items) as [|T [|T' Ts]].
  - done.
  - by split.
  - simpl in Hlen. lia.
Qed.

(** ** Monotone accumulators, prefix-valued store *)

(** C3, as the code has it.  Along the streaming part of every turn the
    content accumulator only grows by extension, and the content of the last
    message at any point is a prefix of its content at the end of the turn.
    A thinking frame starts its reveal from the empty text whatever has been
    accumulated: its calls are those it makes on empty accumulators, its
    writes are the running concatenations of its own sentences followed by
    its text, the first write being its first sentence.  So the length of
    the thinking accumulator never decreases when every thinking text is no
    longer than the first sentence of the thinking text after it; and the
    thinking of the last message at any point is a prefix of its thinking at
    the end when no thinking text starts with a sentence mark and every
    thinking text is a prefix of the one after it.  Both conditions on
    successive texts hold in a turn with at most one thinking frame. *)
Theorem turn_grows_monotonically message settings clock items ending w :
  let log := (streamFrom items ending emptyAcc).2 in
  let opened :=
    after (beforeStream message clock ++ [StreamChat message settings]) w in
  let final := after log.*2 opened in
  let fitsBefore :=
    λ x T : jsstring, length x ≤ length (default [] (head (sentencesOf T))) in
  final = after (handleSend message settings clock items ending) w
  ∧ (∀ i j a b, i ≤ j → log !! i = Some a → log !! j = Some b →
       accumulatedContent a.1 `prefix_of` accumulatedContent b.1)
  ∧ (∀ k, storeContent (after (take k log.*2) opened) `prefix_of` storeContent final)
  ∧ (∀ c acc T, classify c = Some (Thinking T) →
       (onChunk c acc).2.*2 = (onChunk c emptyAcc).2.*2
       ∧ thinkingWrites (onChunk c acc).2.*2
         = runningTexts [] (sentencesOf T) ++ [T]
       ∧ head (thinkingWrites (onChunk c acc).2.*2) = head (sentencesOf T)
       ∧ accumulatedThinking (onChunk c acc).1.2 = T)
  ∧ (chainFrom fitsBefore [] (thinkingTexts items) →
     ∀ i j a b, i ≤ j → log !! i = Some a → log !! j = Some b →
       length (accumulatedThinking a.1) ≤ length (accumulatedThinking b.1))
  ∧ (Forall startsPlain (thinkingTexts items) →
     chainFrom prefix [] (thinkingTexts items) →
     ∀ k, storeThinking (after (take k log.*2) opened)
            `prefix_of` storeThinking final)
  ∧ (length (thinkingTexts items) ≤ 1 →
     chainFrom fitsBefore [] (thinkingTexts items)
     ∧ chainFrom prefix [] (thinkingTexts items)).
Proof.
  cbv zeta.
  pose proof (beforeStream_Synced message settings clock w) as Hsync.
  pose proof (streamFrom_Synced items ending emptyAcc _ Hsync) as Hend.
  apply Synced_store in Hsync as [Hcontent Hthinking].
  apply Synced_store in Hend as [_ Hfinal].
  pose proof (streamFrom_faithful items ending emptyAcc) as Hfaithful.
  split_and!.
  - by rewrite handleSend_split.
  - intros i j a b Hij Ha Hb.
    pose proof (streamFrom_content_chain items ending emptyAcc) as Hchain.
    eapply (chainFrom_lookup contentGrows _ _ i j a.1 b.1 Hchain Hij);
      rewrite list_lookup_fmap; [by rewrite Ha|by rewrite Hb].
  - apply (store_follows accumulatedContent storeContent upd_content prefix
             storeContent_other storeContent_update faithful_content
             _ emptyAcc); [done| |by rewrite Hcontent].
    apply streamFrom_content_chain.
  - intros c acc T Hk.
    assert (thinkingWrites (onChunk c acc).2.*2
            = runningTexts [] (sentencesOf T) ++ [T]) as Hwrites.
    { rewrite onChunk_classify, Hk. cbv zeta. cbn [fst snd fmap list_fmap].
      rewrite fmap_app. cbn [fmap list_fmap snd].
      unfold thinkingWrites at 1. cbn [omap list_omap].
      fold (thinkingWrites ((revealSentences (sentencesOf T) [] acc).2.*2
        ++ [UpdateLastMessage (thinkingUpdate T)])).
      by rewrite thinkingWrites_app, revealSentences_thinkingWrites. }
    split_and!.
    + rewrite !onChunk_classify, Hk. cbv zeta. cbn [fst snd fmap list_fmap].
      rewrite !fmap_app. cbn [fmap list_fmap snd].
      by rewrite (revealSentences_calls _ _ acc emptyAcc).
    + exact Hwrites.
    + rewrite Hwrites. pose proof (sentencesOf_not_nil T) as Hnn.
      by destruct (sentencesOf T).
    + by rewrite onChunk_classify, Hk.
  - intros Hfits i j a b Hij Ha Hb.
    assert (chainFrom (λ a b : Acc, length (accumulatedThinking a)
                                    ≤ length (accumulatedThinking b))
              emptyAcc (streamFrom items ending emptyAcc).2.*1) as Hchain.
    { apply (streamFrom_thinking_chain (λ a b : jsstring, length a ≤ length b)).
      - intros x y. rewrite length_app. lia.
      - eapply chainFrom_impl; [|exact Hfits].
        intros x T Hx. split; [exact Hx|apply sentencesOf_length]. }
    pose proof (thinkingGrows_preorder (λ a b : jsstring, length a ≤ length b))
      as Hpreorder.
    eapply (chainFrom_lookup _ _ _ i j a.1 b.1 Hchain Hij);
      rewrite list_lookup_fmap; [by rewrite Ha|by rewrite Hb].
  - intros Hplain Hsnapshots k.
    destruct (streamFrom_below items ending emptyAcc Hplain Hsnapshots)
      as [Hstart Hall].
    set (F := accumulatedThinking (streamFrom items ending emptyAcc).1) in *.
    destruct (store_follows accumulatedThinking storeThinking upd_thinking
                (λ x y : jsstring, y `prefix_of` F → x `prefix_of` F)
                storeThinking_other storeThinking_update faithful_thinking
                (streamFrom items ending emptyAcc).2 emptyAcc
                (after (beforeStream message clock
                          ++ [StreamChat message settings]) w))
      as [Hfollows _].
    + exact Hfaithful.
    + by apply (chainFrom_bounded (λ a, accumulatedThinking a `prefix_of` F)).
    + rewrite Hthinking. done.
    + rewrite Hfinal. apply Hfollows. by rewrite Hfinal.
  - intros Hone. split.
    + apply one_thinking_text; [done|]. intros T. simpl. lia.
    + apply one_thinking_text; [done|]. intros T. apply prefix_nil.
Qed.

Lemma turn_grows_monotonically_witness :
  let message := js "q" in
  let settings := defaultSettings in
  let clock := {| userIdNow := 1; userDate := 1;
                  assistantIdNow := 2; assistantDate := 2 |} in
  let items := [Yield (thinkingEvent (js "A.")); Yield (thinkingEvent (js "A. B."));
                Yield (contentEvent (js "Hi")); Yield (contentEvent (js " there"));
                Yield finishEvent] in
  let w := {| chat := initialState; isThinkingStreaming := false;
              isContentStreaming := false |} in
  let log := (streamFrom items Exhausted emptyAcc).2 in
  let opened :=
    after (beforeStream message clock ++ [StreamChat message settings]) w in
  let final := after log.*2 opened in
  thinkingTexts items = [js "A."; js "A. B."]
  ∧ (∀ i j a b, i ≤ j → log !! i = Some a → log !! j = Some b →
       length (accumulatedThinking a.1) ≤ length (accumulatedThinking b.1))
  ∧ (∀ k, storeThinking (after (take k log.*2) opened)
            `prefix_of` storeThinking final)
  ∧ (∀ k, storeContent (after (take k log.*2) opened)
            `prefix_of` storeContent final)
  ∧ thinkingWrites (onChunk (thinkingEvent (js "A. B."))
                      {| accumulatedThinking := js "A.";
                         accumulatedContent := [] |}).2.*2
    = [js "A."; js "A. B."; js "A. B."].
Proof.
  destruct (turn_grows_monotonically (js "q") defaultSettings
              {| userIdNow := 1; userDate := 1; assistantIdNow := 2; assistantDate := 2 |}
              [Yield (thinkingEvent (js "A.")); Yield (thinkingEvent (js "A. B."));
               Yield (contentEvent (js "Hi")); Yield (contentEvent (js " there"));
               Yield finishEvent]
              Exhausted
              {| chat := initialState; isThinkingStreaming := false;
                 isContentStreaming := false |})
    as (_ & _ & Hcontent & Hrestart & Hlen & Hpre & _).
  split_and!.
  - reflexivity.
  - apply Hlen. vm_compute. lia.
  - apply Hpre.
    + repeat constructor; intros c; vm_compute; by intros [= <-].
    + vm_compute. split_and!; [by exists (js "A.")|by exists (js " B.")|done].
  - exact Hcontent.
  - destruct (Hrestart (thinkingEvent (js "A. B."))
                {| accumulatedThinking := js "A."; accumulatedContent := [] |}
                (js "A. B.") eq_refl) as (_ & -> & _).
    reflexivity.
Defined.

(** C3 as worded fails for a turn with two thinking frames, "A. B." then
    "C.": between two successive store writes (entries 6 and 9 of the log)
    the thinking accumulator shrinks from five units to two, and the
    thinking shown after the first frame, "A. B.", is not a prefix of the
    final "C.". *)
Lemma second_thinking_frame_restarts :
  let items := [Yield (thinkingEvent (js "A. B.")); Yield (thinkingEvent (js "C."))] in
  let log := (streamFrom items Exhausted emptyAcc).2 in
  let w := {| chat := initialState; isThinkingStreaming := false;
              isContentStreaming := false |} in
  let clock := {| userIdNow := 1; userDate := 1;
                  assistantIdNow := 2; assistantDate := 2 |} in
  let opened :=
    after (beforeStream (js "q") clock ++ [StreamChat (js "q") defaultSettings]) w in
  let final := after log.*2 opened in
  log !! 6 = Some ({| accumulatedThinking := js "A. B."; accumulatedContent := [] |},
                   UpdateLastMessage (thinkingUpdate (js "A. B.")))
  ∧ log !! 9 = Some ({| accumulatedThinking := js "C."; accumulatedContent := [] |},
                     UpdateLastMessage (thinkingUpdate (js "C.")))
  ∧ messageCalls (take 2 (drop 7 log.*2)) = []
  ∧ length (js "C.") < length (js "A. B.")
  ∧ storeThinking (after (take 7 log.*2) opened) = js "A. B."
  ∧ storeThinking final = js "C."
  ∧ ¬ storeThinking (after (take 7 log.*2) opened) `prefix_of` storeThinking final.
Proof.
  cbv zeta. split_and!.
  - by vm_compute.
  - by vm_compute.
  - by vm_compute.
  - vm_compute. lia.
  - by vm_compute.
  - by vm_compute.
  - intros [k Hk]. vm_compute in Hk. discriminate.
Qed.

(** * Further properties of the store *)

(** X1.  Updating the last message right after appending a message is the
    same as appending the already updated message: on any store, and with
    any update object. *)
Theorem add_then_update_is_add_updated m u w :
  after [AddMessage m; UpdateLastMessage u] w = after [AddMessage (spread m u)] w.
Proof.
  peel. by rewrite (after_update_snoc u _ (messages (chat w)) m).
Qed.

(** X2.  [updateLastMessage] keeps the number of messages, leaves every
    message but the last as it is, replaces the last by its spread with the
    update, and changes nothing else in the store or the page. *)
Theorem update_touches_last_only u w :
  let w' := after [UpdateLastMessage u] w in
  length (messages (chat w')) = length (messages (chat w))
  ∧ (∀ i, S i < length (messages (chat w)) →
          messages (chat w') !! i = messages (chat w) !! i)
  ∧ lastMessage w' = (λ m, spread m u) <$> lastMessage w
  ∧ settings (chat w') = settings (chat w)
  ∧ isStreaming (chat w') = isStreaming (chat w)
  ∧ error (chat w') = error (chat w)
  ∧ isThinkingStreaming w' = isThinkingStreaming w
  ∧ isContentStreaming w' = isContentStreaming w.
Proof.
  cbv zeta. unfold lastMessage.
  destruct (messages (chat w)) as [|m ms _] eqn:Hw using rev_ind.
  - rewrite after_update_empty by done. rewrite Hw. split_and!; try done.
  - rewrite (after_update_snoc u w ms m) by done.
    cbn [chat withChat messages withMessages settings isStreaming error
         isThinkingStreaming isContentStreaming].
    rewrite !length_app, !last_snoc. split_and!; try done.
    intros i Hi. simpl in Hi. rewrite !lookup_app_l by lia. done.
Qed.

Lemma spread_mergeUpdates m u1 u2 :
  spread (spread m u1) u2 = spread m (mergeUpdates u1 u2).
Proof.
  unfold spread, mergeUpdates. simpl.
  destruct (upd_id u2), (upd_role u2), (upd_content u2), (upd_thinking u2),
    (upd_timestamp u2); done.
Qed.

Lemma mergeUpdates_same u : mergeUpdates u u = u.
Proof.
  destruct u as [i r c t ts]. unfold mergeUpdates. simpl.
  by destruct i, r, c, t, ts.
Qed.

Lemma after_two_updates u1 u2 w :
  after [UpdateLastMessage u1; UpdateLastMessage u2] w
  = after [UpdateLastMessage (mergeUpdates u1 u2)] w.
Proof.
  peel.
  destruct (messages (chat w)) as [|m ms _] eqn:Hw using rev_ind.
  - rewrite (after_update_empty u1) by done. by rewrite !after_update_empty.
  - rewrite (after_update_snoc u1 w ms m) by done.
    rewrite (after_update_snoc u2 _ ms (spread m u1)) by done.
    rewrite (after_update_snoc _ w ms m) by done.
    by rewrite spread_mergeUpdates.
Qed.

(** X3.  Two updates of the last message in a row act as the one update
    that merges them, the later one winning where both set a field.  So
    repeating an update changes nothing, and a content write and a thinking
    write give the same store in either order. *)
Theorem successive_updates_merge u1 u2 c t w :
  after [UpdateLastMessage u1; UpdateLastMessage u2] w
    = after [UpdateLastMessage (mergeUpdates u1 u2)] w
  ∧ after [UpdateLastMessage u1; UpdateLastMessage u1] w
    = after [UpdateLastMessage u1] w
  ∧ after [UpdateLastMessage (contentUpdate c); UpdateLastMessage (thinkingUpdate t)] w
    = after [UpdateLastMessage (thinkingUpdate t); UpdateLastMessage (contentUpdate c)] w.
Proof.
  split_and!.
  - apply after_two_updates.
  - by rewrite after_two_updates, mergeUpdates_same.
  - by rewrite !after_two_updates.
Qed.

Lemma withCurrent_withCurrent t c t' c' s :
  withCurrent t c (withCurrent t' c' s) = withCurrent t c s.
Proof. done. Qed.

Lemma acts_appendCurrentContent fragments s :
  acts (DoAppendCurrentContent <$> fragments) s
  = Normal (withCurrent (currentThinking s)
              (currentContent s ++ concat fragments) s).
Proof.
  revert s. induction fragments as [|f fs IH]; intros s.
  - simpl. rewrite app_nil_r. by destruct s.
  - cbn [fmap list_fmap acts act]. unfold appendCurrentContent at 1, set.
    rewrite IH. cbn [concat]. rewrite withCurrent_withCurrent.
    simpl. by rewrite app_assoc.
Qed.

(** X4.  A run of [appendCurrentContent] calls leaves [currentContent] as
    its old value followed by the fragments in order, and changes nothing
    else; after [resetCurrent] the result is the concatenation of the
    fragments alone, with [currentThinking] empty. *)
Theorem appended_fragments_concatenate fragments s :
  acts (DoAppendCurrentContent <$> fragments) s
    = Normal (withCurrent (currentThinking s)
                (currentContent s ++ concat fragments) s)
  ∧ acts (DoResetCurrent :: (DoAppendCurrentContent <$> fragments)) s
    = Normal (withCurrent [] (concat fragments) s).
Proof.
  split; [apply acts_appendCurrentContent|].
  cbn [acts act]. unfold resetCurrent, set.
  by rewrite acts_appendCurrentContent.
Qed.

Lemma act_uiOnly a s :
  uiOnly a = true → ∃ s', act a s = Normal s' ∧ partialize s' = partialize s.
Proof. destruct a; try done; intros _; by eexists. Qed.

(** X5.  Whatever sequence of the interface-only actions runs
    ([setStreaming], [setError], and the four on the current texts), what
    [persist] stores, the messages and the settings, stays the same. *)
Theorem ui_actions_not_persisted actions s :
  Forall (λ a, uiOnly a = true) actions →
  ∃ s', acts actions s = Normal s' ∧ partialize s' = partialize s.
Proof.
  intros Hall. revert s. induction Hall as [|a actions Ha _ IH]; intros s.
  - by exists s.
  - destruct (act_uiOnly a s Ha) as (s1 & Hact & Hp).
    destruct (IH s1) as (s2 & Hacts & Hp2).
    exists s2. cbn [acts]. rewrite Hact. split; [done|]. by rewrite Hp2.
Qed.

Lemma ui_actions_not_persisted_witness :
  ∃ s', acts [DoSetStreaming true; DoSetError (Some (js "boom"));
              DoAppendCurrentContent (js "Hi"); DoResetCurrent] initialState
        = Normal s'
        ∧ partialize s' = partialize initialState.
Proof.
  apply (ui_actions_not_persisted
           [DoSetStreaming true; DoSetError (Some (js "boom"));
            DoAppendCurrentContent (js "Hi"); DoResetCurrent] initialState).
  repeat constructor.
Defined.

(** * Further properties of handleSend *)

Lemma faithful_keeps_identity (log : Log) w ms m :
  Forall faithful log → messages (chat w) = ms ++ [m] →
  ∃ m', messages (chat (after log.*2 w)) = ms ++ [m']
        ∧ id m' = id m ∧ role m' = role m ∧ timestamp m' = timestamp m.
Proof.
  intros Hlog. revert w m.
  induction Hlog as [|[a c] log Hc _ IH]; intros w m Hw.
  { exists m. by rewrite after_nil. }
  cbn [fmap list_fmap snd]. rewrite after_cons.
  destruct c; try (by destruct Hc);
    try (apply IH; by rewrite after_other_messages).
  destruct Hc as (Hid & Hrole & Hts & _). simpl in Hid, Hrole, Hts.
  destruct (IH (after [UpdateLastMessage updates] w) (spread m updates))
    as (m' & Hm' & Hi & Hr & Ht).
  { by rewrite (after_update_snoc updates w ms m). }
  exists m'. split; [done|].
  rewrite Hi, Hr, Ht. unfold spread. simpl. by rewrite Hid, Hrole, Hts.
Qed.

(** X7.  A turn adds exactly two messages at the end of the list.  Every
    message that was there before is unchanged, the user message stays as it
    was appended, and the assistant message keeps the id, role and timestamp
    of the placeholder: only its texts are ever written. *)
Theorem turn_keeps_history message settings clock items ending w :
  ∃ reply, messages (chat (after (handleSend message settings clock items ending) w))
           = messages (chat w) ++ [userMessage message clock; reply]
         ∧ id reply = id (assistantMessage clock)
         ∧ role reply = assistant
         ∧ timestamp reply = timestamp (assistantMessage clock).
Proof.
  rewrite handleSend_split.
  destruct (faithful_keeps_identity (streamFrom items ending emptyAcc).2
              (after (beforeStream message clock ++ [StreamChat message settings]) w)
              (messages (chat w) ++ [userMessage message clock])
              (assistantMessage clock)) as (m' & Hm' & Hi & Hr & Ht).
  - apply streamFrom_faithful.
  - unfold after. simpl. by rewrite <- app_assoc.
  - exists m'. rewrite Hm', <- app_assoc. done.
Qed.

Lemma onChunk_continue c acc :
  endsLoop (Yield c) = false →
  (onChunk c acc).1.1 = Continue
  ∧ accumulatedContent (onChunk c acc).1.2
    = accumulatedContent acc ++ concat (contentFragments [Yield c])
  ∧ accumulatedThinking (onChunk c acc).1.2
    = default (accumulatedThinking acc) (last (thinkingTexts [Yield c])).
Proof.
  intros Hc. rewrite onChunk_classify. cbv zeta.
  unfold contentFragments, thinkingTexts, endsLoop in *. cbn [omap list_omap].
  destruct (classify c) as [[T|f| |message]|]; try done; simpl;
    by rewrite ?app_nil_r.
Qed.

Lemma last_app_default {A : Type} (x : A) (l1 l2 : list A) :
  default x (last (l1 ++ l2)) = default (default x (last l1)) (last l2).
Proof.
  rewrite last_app. by destruct (last l2).
Qed.

Lemma forAwait_no_break items acc :
  Forall (λ item, endsLoop item = false) items →
  (forAwait items acc).1.1 = false
  ∧ accumulatedContent (forAwait items acc).1.2
    = accumulatedContent acc ++ concat (contentFragments items)
  ∧ accumulatedThinking (forAwait items acc).1.2
    = default (accumulatedThinking acc) (last (thinkingTexts items)).
Proof.
  intros Hitems. revert acc.
  induction Hitems as [|item items Hitem _ IH]; intros acc.
  { simpl. by rewrite app_nil_r. }
  destruct item as [c|message]; cbn [forAwait].
  - destruct (onChunk_continue c acc Hitem) as (Hflow & Hcontent & Hthinking).
    rewrite Hflow. cbn [fst snd].
    destruct (IH (onChunk c acc).1.2) as (Hb & Hc & Ht).
    split_and!; [done| |].
    + rewrite Hc, Hcontent.
      change (Yield c :: items) with ([Yield c] ++ items).
      unfold contentFragments. rewrite omap_app, concat_app.
      by rewrite app_assoc.
    + rewrite Ht, Hthinking.
      change (Yield c :: items) with ([Yield c] ++ items).
      unfold thinkingTexts. rewrite omap_app. by rewrite last_app_default.
  - cbn [fst snd]. destruct (IH acc) as (Hb & Hc & Ht). done.
Qed.

(** X8.  In a stream without a finish or error frame, thinking and content
    frames may come in any order and mixed with frames that are ignored: at
    the end of the turn the content of the last message is the
    concatenation of all content fragments in order, and its thinking is the
    text of the last thinking frame (empty when there was none). *)
Theorem interleaved_channels_independent message settings clock items ending w :
  Forall (λ item, endsLoop item = false) items →
  let final := after (handleSend message settings clock items ending) w in
  storeContent final = concat (contentFragments items)
  ∧ storeThinking final = default [] (last (thinkingTexts items)).
Proof.
  intros Hitems. cbv zeta. rewrite handleSend_split.
  pose proof (streamFrom_Synced items ending emptyAcc _
                (beforeStream_Synced message settings clock w)) as Hsync.
  apply Synced_store in Hsync as [-> ->].
  unfold streamFrom. cbn [fst].
  by destruct (forAwait_no_break items emptyAcc Hitems) as (_ & -> & ->).
Qed.

Lemma interleaved_channels_independent_witness :
  let items := [Yield (contentEvent (js "Hi")); Yield (thinkingEvent (js "A. B."));
                Yield (thinkingEvent []); Yield (contentEvent (js " there"))] in
  let final :=
    after (handleSend (js "q") defaultSettings
             {| userIdNow := 1; userDate := 1; assistantIdNow := 2; assistantDate := 2 |}
             items Exhausted)
      {| chat := initialState; isThinkingStreaming := false;
         isContentStreaming := false |} in
  storeContent final = concat (contentFragments items)
  ∧ storeThinking final = default [] (last (thinkingTexts items)).
Proof.
  apply (interleaved_channels_independent (js "q") defaultSettings
           {| userIdNow := 1; userDate := 1; assistantIdNow := 2; assistantDate := 2 |}
           [Yield (contentEvent (js "Hi")); Yield (thinkingEvent (js "A. B."));
            Yield (thinkingEvent []); Yield (contentEvent (js " there"))]
           Exhausted).
  repeat constructor.
Defined.

Lemma errorReports_app l1 l2 :
  errorReports (l1 ++ l2) = errorReports l1 ++ errorReports l2.
Proof. apply omap_app. Qed.

Lemma error_after calls w :
  Forall (λ c, clears c = false) calls →
  error (chat (after calls w)) = default (error (chat w)) (last (errorReports calls)).
Proof.
  intros Hcalls. revert w. induction Hcalls as [|c calls Hc _ IH]; intros w.
  { done. }
  rewrite after_cons, IH.
  change (c :: calls) with ([c] ++ calls).
  rewrite errorReports_app, last_app_default. f_equal.
  by destruct c.
Qed.

Lemma faithful_no_clear (log : Log) :
  Forall faithful log → Forall (λ c, clears c = false) log.*2.
Proof.
  intros Hlog. apply Forall_fmap. eapply Forall_impl; [exact Hlog|].
  intros [acc c]. unfold faithful. simpl. by destruct c.
Qed.

(** X9.  [handleSend] resets the store's error before the stream opens, and
    at the end of the turn the error is the last one reported during the
    turn (by an error frame, the transport callback or the [catch] clause),
    or [null] when nothing was reported; an error of an earlier turn never
    survives. *)
Theorem turn_error_is_last_report message settings clock items ending w :
  let streamed := (streamFrom items ending emptyAcc).2.*2 in
  error (chat (after (handleSend message settings clock items ending) w))
  = default None (last (errorReports streamed)).
Proof.
  cbv zeta. rewrite handleSend_split.
  rewrite error_after by apply faithful_no_clear, streamFrom_faithful.
  done.
Qed.

(** X10.  When no frame ends the loop and the iteration then throws, the
    [catch] clause reports the message of the thrown error (or
    "Failed to send message" for a value that is no Error), and the
    messages are what they would be had the stream simply ended: the partial
    output stays. *)
Theorem rejected_stream_reported message settings clock items thrown w :
  Forall (λ item, endsLoop item = false) items →
  let final := after (handleSend message settings clock items (Rejected thrown)) w in
  error (chat final) = Some (thrownMessage thrown)
  ∧ messages (chat final)
    = messages (chat (after (handleSend message settings clock items Exhausted) w)).
Proof.
  intros Hitems. cbv zeta. rewrite !handleSend_split.
  set (w1 := after (beforeStream message clock ++ [StreamChat message settings]) w).
  unfold streamFrom. cbn [snd].
  destruct (forAwait_no_break items emptyAcc Hitems) as (Hbroke & _).
  rewrite Hbroke. rewrite !fmap_app, !after_app.
  split.
  - by destruct thrown.
  - by rewrite !after_untouched by (by repeat constructor).
Qed.

Lemma rejected_stream_reported_witness :
  let items := [Yield (thinkingEvent (js "A. B.")); Yield (contentEvent (js "Hi"))] in
  let clock := {| userIdNow := 1; userDate := 1;
                  assistantIdNow := 2; assistantDate := 2 |} in
  let w := {| chat := initialState; isThinkingStreaming := false;
              isContentStreaming := false |} in
  let final := after (handleSend (js "q") defaultSettings clock items
                        (Rejected (ErrorObject (js "network down")))) w in
  error (chat final) = Some (thrownMessage (ErrorObject (js "network down")))
  ∧ messages (chat final)
    = messages (chat (after (handleSend (js "q") defaultSettings clock items
                               Exhausted) w)).
Proof.
  apply (rejected_stream_reported (js "q") defaultSettings
           {| userIdNow := 1; userDate := 1; assistantIdNow := 2; assistantDate := 2 |}
           [Yield (thinkingEvent (js "A. B.")); Yield (contentEvent (js "Hi"))]
           (ErrorObject (js "network down"))).
  repeat constructor.
Defined.

Lemma onChunk_break c acc :
  endsLoop (Yield c) = true → (onChunk c acc).1.1 = Break.
Proof.
  intros Hc. rewrite onChunk_classify. cbv zeta. unfold endsLoop in Hc.
  by destruct (classify c) as [[T|f| |message]|].
Qed.

(** X11.  The first finish or error frame ends the turn: the frames that
    follow it are never looked at, and how the iteration would have ended
    does not matter.  The calls of the turn are those of the stream cut
    right after that frame. *)
Theorem nothing_after_break message settings clock items c rest ending :
  endsLoop (Yield c) = true →
  handleSend message settings clock (items ++ Yield c :: rest) ending
  = handleSend message settings clock (items ++ [Yield c]) Exhausted.
Proof.
  intros Hc. unfold handleSend, streamFrom. rewrite !forAwait_app. cbv zeta.
  destruct (forAwait items emptyAcc) as [[[] acc1] log1]; cbn [fst snd].
  - done.
  - cbn [forAwait]. rewrite (onChunk_break c acc1 Hc). done.
Qed.

Lemma nothing_after_break_witness :
  handleSend (js "q") defaultSettings
    {| userIdNow := 1; userDate := 1; assistantIdNow := 2; assistantDate := 2 |}
    ([Yield (contentEvent (js "Hi"))]
       ++ Yield finishEvent :: [Yield (contentEvent (js " there"))])
    (Rejected OtherValue)
  = handleSend (js "q") defaultSettings
      {| userIdNow := 1; userDate := 1; assistantIdNow := 2; assistantDate := 2 |}
      ([Yield (contentEvent (js "Hi"))] ++ [Yield finishEvent]) Exhausted.
Proof.
  apply (nothing_after_break (js "q") defaultSettings
           {| userIdNow := 1; userDate := 1; assistantIdNow := 2; assistantDate := 2 |}
           [Yield (contentEvent (js "Hi"))] finishEvent
           [Yield (contentEvent (js " there"))] (Rejected OtherValue)).
  reflexivity.
Defined.

Lemma onChunk_pauses c acc :
  pauses (onChunk c acc).2.*2
  = replicate (sum_list_with (λ T, length (sentencesOf T)) (thinkingTexts [Yield c])) 50%N.
Proof.
  rewrite onChunk_classify. cbv zeta. unfold thinkingTexts. cbn [omap list_omap].
  destruct (classify c) as [[T|f| |message]|]; try done.
  cbn [snd fmap list_fmap]. rewrite fmap_app.
  unfold pauses at 1. cbn [omap list_omap].
  fold (pauses ((revealSentences (sentencesOf T) [] acc).2.*2
                  ++ [(({| accumulatedThinking := T;
                           accumulatedContent := accumulatedContent acc |},
                        UpdateLastMessage (thinkingUpdate T)) : Acc * Call).2])).
  rewrite pauses_app, revealSentences_pauses. simpl.
  by rewrite app_nil_r, Nat.add_0_r.
Qed.

Lemma forAwait_pauses items acc :
  Forall (λ item, endsLoop item = false) items →
  pauses (forAwait items acc).2.*2
  = replicate (sum_list_with (λ T, length (sentencesOf T)) (thinkingTexts items)) 50%N.
Proof.
  intros Hitems. revert acc.
  induction Hitems as [|item items Hitem _ IH]; intros acc; [done|].
  destruct item as [c|message]; cbn [forAwait].
  - destruct (onChunk_continue c acc Hitem) as (Hflow & _).
    rewrite Hflow. cbn [fst snd].
    rewrite fmap_app, pauses_app, IH, onChunk_pauses.
    change (Yield c :: items) with ([Yield c] ++ items).
    unfold thinkingTexts. rewrite omap_app, sum_list_with_app.
    by rewrite replicate_add.
  - cbn [fst snd]. rewrite fmap_app, pauses_app, IH. done.
Qed.

(** X12.  Only the thinking channel is paced.  In a stream without a finish
    or error frame the turn pauses 50 ms once for every sentence of every
    thinking frame, in order, and for nothing else: content frames, ignored
    frames and the end of the turn cost no pause. *)
Theorem only_thinking_is_paced items ending :
  Forall (λ item, endsLoop item = false) items →
  pauses (streamFrom items ending emptyAcc).2.*2
  = replicate (sum_list_with (λ T, length (sentencesOf T)) (thinkingTexts items)) 50%N.
Proof.
  intros Hitems. unfold streamFrom. cbn [snd].
  rewrite !fmap_app, !pauses_app, forAwait_pauses by done.
  destruct (forAwait items emptyAcc).1.1; [by rewrite app_nil_r|].
  destruct ending; by rewrite app_nil_r.
Qed.

Lemma only_thinking_is_paced_witness :
  pauses (streamFrom [Yield (thinkingEvent (js "A. B.")); Yield (contentEvent (js "Hi"))]
            Exhausted emptyAcc).2.*2
  = replicate
      (sum_list_with (λ T, length (sentencesOf T))
         (thinkingTexts [Yield (thinkingEvent (js "A. B."));
                         Yield (contentEvent (js "Hi"))])) 50%N.
Proof.
  apply (only_thinking_is_paced
           [Yield (thinkingEvent (js "A. B.")); Yield (contentEvent (js "Hi"))]
           Exhausted).
  repeat constructor.
Defined.

(** * Further properties of the sentence pattern *)

Lemma matchHere_shape s m rest :
  matchHere s = Some (m, rest) → sentenceShaped m.
Proof.
  unfold matchHere.
  pose proof (span_run plain s) as Hbody.
  destruct (span plain s) as [body afterBody]; simpl in Hbody.
  pose proof (span_run terminal afterBody) as Hmarks.
  destruct (span terminal afterBody) as [marks rest']; simpl in Hmarks.
  destruct body as [|b body]; [done|].
  destruct marks as [|k marks]; [done|].
  intros [= <- <-]. exists (b :: body), (k :: marks). split_and!; try done.
  eapply Forall_impl; [exact Hbody|]. intros x Hx. by apply plain_terminal.
Qed.

Lemma matchAll_shape fuel s : Forall sentenceShaped (matchAll fuel s).
Proof.
  revert s. induction fuel as [|fuel IH]; intros s; [constructor|].
  destruct s as [|c s]; [constructor|]. simpl.
  destruct (matchHere (c :: s)) as [[m rest]|] eqn:Hm; [|apply IH].
  constructor; [by eapply matchHere_shape|apply IH].
Qed.

(** What the matches leave out of the string without its leading marks: a
    closing stretch without any mark. *)
Lemma matchAll_leftover fuel s :
  length s ≤ fuel →
  ∃ tail, (span terminal s).2 = concat (matchAll fuel s) ++ tail
          ∧ Forall (λ x, terminal x = false) tail.
Proof.
  revert s. induction fuel as [|fuel IH]; intros s Hlen.
  { destruct s; [|simpl in Hlen; lia]. by exists []. }
  destruct s as [|c s]; [by exists []|].
  simpl in Hlen. cbn [matchAll].
  destruct (terminal c) eqn:Hc.
  - rewrite matchHere_terminal by done.
    rewrite span_accept by done. simpl. apply IH. lia.
  - rewrite span_reject by done. simpl.
    destruct (matchHere (c :: s)) as [[m rest]|] eqn:Hm.
    + apply matchHere_Some in Hm as (Hs & _ & Hrest & _ & Hstop).
      assert (span terminal rest = ([], rest)) as Hspan.
      { destruct rest as [|r rest]; [done|].
        apply span_reject. by apply Hstop. }
      destruct (IH rest) as (tail & Htail & Hplain).
      { simpl in Hrest. lia. }
      rewrite Hspan in Htail. simpl in Htail.
      exists tail. split; [|done].
      rewrite Hs. simpl. rewrite <- app_assoc. by rewrite <- Htail.
    + apply matchHere_None_plain in Hm; [|done].
      rewrite matchAll_plain by exact (Forall_inv_tail Hm).
      exists (c :: s). split; [done|].
      eapply Forall_impl; [exact Hm|]. intros x Hx. by apply plain_terminal.
Qed.

Lemma matchSentences_matchAll T :
  default [] (matchSentences T) = matchAll (length T) T.
Proof. unfold matchSentences. by destruct (matchAll (length T) T). Qed.

(** X13.  The pattern cuts a text into three parts: sentence marks at the
    very start, which belong to no sentence; the sentences, back to back,
    each a stretch of units that are no marks followed by a stretch of
    marks; and a closing stretch without any mark.  Nothing else is left
    out and nothing is reordered. *)
Theorem sentences_partition_text T :
  ∃ lead tail,
    T = lead ++ concat (default [] (matchSentences T)) ++ tail
    ∧ Forall (λ x, terminal x = true) lead
    ∧ Forall (λ x, terminal x = false) tail
    ∧ Forall sentenceShaped (default [] (matchSentences T)).
Proof.
  rewrite matchSentences_matchAll.
  destruct (matchAll_leftover (length T) T (le_n _)) as (tail & Htail & Hplain).
  exists (span terminal T).1, tail. split_and!.
  - rewrite <- Htail. by rewrite span_app.
  - apply span_run.
  - exact Hplain.
  - apply matchAll_shape.
Qed.

(** X14.  The sentences handed to the reveal loop cover the whole text,
    so that the last per-sentence write already shows all of it, when the
    text starts with a unit that is no mark and ends with a mark. *)
Theorem reveal_lossless T c :
  startsPlain T → last T = Some c → terminal c = true →
  concat (sentencesOf T) = T.
Proof.
  intros Hstart Hlast Hc.
  destruct (matchAll_leftover (length T) T (le_n _)) as (tail & Htail & Hplain).
  rewrite span_terminal_startsPlain in Htail by done.
  assert (tail = []) as ->.
  { destruct tail as [|x tail _] using rev_ind; [done|].
    rewrite Htail, app_assoc, last_snoc in Hlast. injection Hlast as ->.
    apply Forall_app in Hplain as [_ Hx]. apply Forall_inv in Hx. congruence. }
  rewrite app_nil_r in Htail.
  unfold sentencesOf, matchSentences.
  destruct (matchAll (length T) T); simpl in *; [by rewrite app_nil_r|done].
Qed.

Lemma reveal_lossless_witness :
  concat (sentencesOf (js "Hi! How are you??")) = js "Hi! How are you??".
Proof.
  apply (reveal_lossless (js "Hi! How are you??") 63%N).
  - intros c. vm_compute. intros Hc. injection Hc as <-. reflexivity.
  - reflexivity.
  - reflexivity.
Defined.

(** * Properties of what the page renders *)

Lemma isEmptyAndWaiting_true w index msg :
  isEmptyAndWaiting w index msg = true ↔
  isStreaming (chat w) = true
  ∧ S index = length (messages (chat w))
  ∧ isAssistant msg = true
  ∧ content msg = []
  ∧ truthy (thinking msg) = false
  ∧ isThinkingStreaming w = false
  ∧ isContentStreaming w = false.
Proof.
  unfold isEmptyAndWaiting, isStreamingThisMessage, isLastMessage.
  rewrite !andb_true_iff, !negb_true_iff, bool_decide_eq_true.
  assert (nonEmpty (content msg) = false ↔ content msg = []) as ->.
  { by destruct (content msg). }
  split.
  - intros ((((((? & ?) & ?) & ?) & ?) & ?) & ?). split_and!; try done. lia.
  - intros (? & ? & ? & ? & ? & ? & ?). split_and!; try done. lia.
Qed.

Lemma showsLoading_true w :
  showsLoading w = true ↔
  isStreaming (chat w) = true
  ∧ isThinkingStreaming w = false
  ∧ isContentStreaming w = false
  ∧ ∃ m, lastMessage w = Some m ∧ isAssistant m = true
         ∧ content m = [] ∧ truthy (thinking m) = false.
Proof.
  unfold showsLoading.
  rewrite !andb_true_iff, !negb_true_iff.
  destruct (lastMessage w) as [m|].
  - assert (nonEmpty (content m) = false ↔ content m = []) as ->.
    { by destruct (content m). }
    split.
    + intros (((((? & ?) & ?) & ?) & ?) & ?). split_and!; try done. by exists m.
    + intros (? & ? & ? & m' & [= <-] & ? & ? & ?). by split_and!.
  - split.
    + by intros (((((? & ?) & ?) & ?) & ?) & ?).
    + by intros (? & ? & ? & m' & ? & ?).
Qed.

(** X15.  A message is left out of the rendered list exactly when it is
    the last one and the loading card is shown: the card stands in for the
    empty assistant placeholder, the two are never shown together, and no
    other message is ever hidden. *)
Theorem loader_stands_in_for_placeholder w index :
  renderMessages w !! index = Some None
  ↔ showsLoading w = true ∧ S index = length (messages (chat w)).
Proof.
  unfold renderMessages. rewrite list_lookup_imap.
  rewrite showsLoading_true. unfold lastMessage. rewrite last_lookup.
  split.
  - destruct (messages (chat w) !! index) as [msg|] eqn:Hmsg; [|done].
    simpl. unfold renderMessage.
    destruct (isEmptyAndWaiting w index msg) eqn:Hwait; [|done].
    intros _. apply isEmptyAndWaiting_true in Hwait
      as (? & Hlast & ? & ? & ? & ? & ?).
    split_and!; try done. exists msg.
    rewrite <- Hlast. simpl. by rewrite Hmsg.
  - intros ((? & ? & ? & m & Hm & ? & ? & ?) & Hlast).
    rewrite <- Hlast in Hm. simpl in Hm. rewrite Hm. simpl.
    unfold renderMessage.
    assert (isEmptyAndWaiting w index m = true) as ->; [|done].
    apply isEmptyAndWaiting_true. by split_and!.
Qed.

Lemma turn_always_is_over message settings clock items ending w :
  isStreaming (chat (after (handleSend message settings clock items ending) w))
    = false
  ∧ isThinkingStreaming (after (handleSend message settings clock items ending) w)
    = false
  ∧ isContentStreaming (after (handleSend message settings clock items ending) w)
    = false.
Proof. rewrite handleSend_split. apply streamFrom_ends. Qed.

Lemma loader_hides_last w :
  showsLoading w = true →
  renderMessages w !! pred (length (renderMessages w)) = Some None.
Proof.
  intros Hl. unfold renderMessages. rewrite length_imap, list_lookup_imap.
  apply showsLoading_true in Hl as (? & ? & ? & m & Hm & ? & ? & ?).
  unfold lastMessage in Hm. rewrite last_lookup in Hm. rewrite Hm. simpl.
  unfold renderMessage.
  assert (isEmptyAndWaiting w (pred (length (messages (chat w)))) m = true)
    as ->; [|done].
  apply isEmptyAndWaiting_true. split_and!; try done.
  destruct (messages (chat w)); [done|]. simpl. done.
Qed.

(** X16.  Once the placeholder is appended and until the first frame is
    handled, the page shows the loading card and hides the placeholder; when
    [handleSend] has returned, whatever the stream was, the loading card is
    gone and every message is rendered. *)
Theorem loader_at_start_gone_at_end message settings clock items ending w :
  let opened :=
    after (beforeStream message clock ++ [StreamChat message settings]) w in
  let final := after (handleSend message settings clock items ending) w in
  showsLoading opened = true
  ∧ last (renderMessages opened) = Some None
  ∧ showsLoading final = false
  ∧ Forall is_Some (renderMessages final).
Proof.
  cbv zeta.
  assert (showsLoading
            (after (beforeStream message clock ++ [StreamChat message settings]) w)
          = true) as Hopen.
  { apply showsLoading_true. split_and!; try done.
    exists (assistantMessage clock). split; [|done].
    unfold lastMessage, after. simpl. apply last_snoc. }
  destruct (turn_always_is_over message settings clock items ending w)
    as (Hs & _).
  split_and!.
  - exact Hopen.
  - rewrite last_lookup.
    apply loader_hides_last. exact Hopen.
  - apply not_true_is_false. intros Hl. apply showsLoading_true in Hl as (? & _).
    congruence.
  - apply Forall_forall. intros r Hr. apply list_elem_of_lookup in Hr as [i Hi].
    unfold renderMessages in Hi. rewrite list_lookup_imap in Hi.
    destruct (messages _ !! i) as [msg|]; [|done]. simpl in Hi.
    injection Hi as <-. unfold renderMessage.
    destruct (isEmptyAndWaiting _ i msg) eqn:Hwait; [|done].
    apply isEmptyAndWaiting_true in Hwait as (? & _). congruence.
Qed.

Lemma isStreaming_after calls w :
  Forall (λ c, keepsStreaming c = true) calls →
  isStreaming (chat (after calls w)) = isStreaming (chat w).
Proof.
  intros Hcalls. revert w. induction Hcalls as [|c calls Hc _ IH]; intros w.
  { done. }
  rewrite after_cons, IH. by destruct c.
Qed.

Lemma revealSentences_keepsStreaming ss cur acc :
  Forall (λ e : Acc * Call, keepsStreaming e.2 = true) (revealSentences ss cur acc).2.
Proof.
  revert cur acc. induction ss as [|s ss IH]; intros cur acc; simpl.
  - constructor.
  - constructor; [done|]. constructor; [done|]. apply IH.
Qed.

Lemma onChunk_keepsStreaming c acc :
  Forall (λ e : Acc * Call, keepsStreaming e.2 = true) (onChunk c acc).2.
Proof.
  rewrite onChunk_classify. cbv zeta.
  destruct (classify c) as [[T|f| |message]|]; cbn [snd];
    try (by repeat constructor).
  constructor; [done|]. constructor; [done|].
  apply Forall_app. split; [apply revealSentences_keepsStreaming|].
  by repeat constructor.
Qed.

Lemma forAwait_keepsStreaming items acc :
  Forall (λ item, isFault item = false) items →
  Forall (λ e : Acc * Call, keepsStreaming e.2 = true) (forAwait items acc).2.
Proof.
  intros Hitems. revert acc.
  induction Hitems as [|item items Hitem _ IH]; intros acc; [constructor|].
  destruct item as [c|message]; [|done]. cbn [forAwait].
  pose proof (onChunk_keepsStreaming c acc) as Hstep.
  destruct (onChunk c acc) as [[[] acc1] log1]; cbn [fst snd] in *; [|done].
  apply Forall_app. split; [done|apply IH].
Qed.

(** X17.  In a turn without a transport fault the store stays streaming
    from the opening of the stream up to the [finally] clause (the last
    three calls of the turn), so at every point before it the clear button
    of the header is disabled. *)
Theorem clear_disabled_during_turn message settings clock items ending w k :
  Forall (λ item, isFault item = false) items →
  let streamed := (streamFrom items ending emptyAcc).2.*2 in
  let opened :=
    after (beforeStream message clock ++ [StreamChat message settings]) w in
  k + 3 ≤ length streamed →
  isStreaming (chat (after (take k streamed) opened)) = true
  ∧ clearDisabled (after (take k streamed) opened) = true.
Proof.
  intros Hitems. cbv zeta. unfold streamFrom. cbn [snd].
  rewrite app_assoc, fmap_app.
  match goal with
  | |- context [take k (?a ++ ?b)] => set (pre := a); set (closing := b)
  end.
  assert (length closing = 3) as Hclosing by reflexivity.
  assert (Forall (λ c, keepsStreaming c = true) pre) as Hpre.
  { subst pre. apply Forall_fmap, Forall_app. split.
    - by apply forAwait_keepsStreaming.
    - destruct (forAwait items emptyAcc).1.1; [constructor|].
      destruct ending; by repeat constructor. }
  rewrite length_app, Hclosing. intros Hk. rewrite take_app_le by lia.
  assert (isStreaming (chat (after (take k pre)
            (after (beforeStream message clock ++ [StreamChat message settings]) w)))
          = true) as Hs.
  { rewrite isStreaming_after; [done|]. by apply Forall_take. }
  split; [exact Hs|]. unfold clearDisabled. rewrite Hs. apply orb_true_r.
Qed.

Lemma clear_disabled_during_turn_witness :
  let items := [Yield (thinkingEvent (js "A. B.")); Yield (contentEvent (js "Hi"))] in
  let streamed := (streamFrom items Exhausted emptyAcc).2.*2 in
  let opened :=
    after (beforeStream (js "q")
             {| userIdNow := 1; userDate := 1; assistantIdNow := 2; assistantDate := 2 |}
             ++ [StreamChat (js "q") defaultSettings])
      {| chat := initialState; isThinkingStreaming := false;
         isContentStreaming := false |} in
  isStreaming (chat (after (take 5 streamed) opened)) = true
  ∧ clearDisabled (after (take 5 streamed) opened) = true.
Proof.
  apply (clear_disabled_during_turn (js "q") defaultSettings
           {| userIdNow := 1; userDate := 1; assistantIdNow := 2; assistantDate := 2 |}
           [Yield (thinkingEvent (js "A. B.")); Yield (contentEvent (js "Hi"))]
           Exhausted
           {| chat := initialState; isThinkingStreaming := false;
              isContentStreaming := false |} 5).
  - repeat constructor.
  - vm_compute. lia.
Defined.

(** X18.  The two streaming indicators of a message, the badge
    "thinking..." and the line "Generating response...", can only appear on
    the last message of the list, only if it is an assistant message, and
    only while the store is streaming with the matching channel flag set. *)
Theorem indicators_only_on_streaming_reply w index p :
  renderMessages w !! index = Some (Some p) →
  (showsThinkingBadge p = true →
     isStreaming (chat w) = true ∧ isThinkingStreaming w = true
     ∧ S index = length (messages (chat w)) ∧ role (propMessage p) = assistant)
  ∧ (showsGenerating p = true →
     isStreaming (chat w) = true ∧ isContentStreaming w = true
     ∧ S index = length (messages (chat w)) ∧ role (propMessage p) = assistant).
Proof.
  unfold renderMessages. rewrite list_lookup_imap.
  destruct (messages (chat w) !! index) as [msg|]; [|done]. simpl.
  unfold renderMessage. destruct (isEmptyAndWaiting w index msg); [done|].
  intros [= <-].
  unfold showsThinkingBadge, showsGenerating, showsThinkingCard, showsContentCard.
  cbn [propMessage propIsThinkingStreaming propIsContentStreaming].
  unfold isStreamingThisMessage, isLastMessage, isAssistant.
  rewrite !andb_true_iff, !bool_decide_eq_true. split.
  - intros (_ & ((? & ?) & ?) & ?). split_and!; try done; [lia|].
    by destruct (role msg).
  - intros ((_ & ((? & ?) & ?) & ?) & _). split_and!; try done; [lia|].
    by destruct (role msg).
Qed.

Lemma indicators_only_on_streaming_reply_witness :
  let w := {| chat := {| messages := [{| id := js "assistant-2"; role := assistant;
                                          content := js "Hi"; thinking := Some (js "A.");
                                          timestamp := 2 |}];
                         settings := defaultSettings; isStreaming := true;
                         error := None; currentThinking := [];
                         currentContent := [] |};
              isThinkingStreaming := false; isContentStreaming := true |} in
  ∃ p, renderMessages w !! 0 = Some (Some p)
       ∧ (showsThinkingBadge p = true →
            isStreaming (chat w) = true ∧ isThinkingStreaming w = true
            ∧ 1 = length (messages (chat w)) ∧ role (propMessage p) = assistant)
       ∧ (showsGenerating p = true →
            isStreaming (chat w) = true ∧ isContentStreaming w = true
            ∧ 1 = length (messages (chat w)) ∧ role (propMessage p) = assistant).
Proof.
  cbv zeta. eexists. split; [vm_compute; reflexivity|].
  eapply (indicators_only_on_streaming_reply _ 0).
  vm_compute. reflexivity.
Defined.

(** * Properties of the message input *)

Lemma trimStart_head s c :
  head (MessageInput.trimStart s) = Some c → MessageInput.isWhiteSpace c = false.
Proof. apply span_stop. Qed.

Lemma trimStart_fixed s :
  (∀ c, head s = Some c → MessageInput.isWhiteSpace c = false) →
  MessageInput.trimStart s = s.
Proof.
  intros Hs. unfold MessageInput.trimStart. destruct s as [|c s]; [done|].
  by rewrite span_reject by (by apply Hs).
Qed.

Lemma trimEnd_last s c :
  last (MessageInput.trimEnd s) = Some c → MessageInput.isWhiteSpace c = false.
Proof.
  unfold MessageInput.trimEnd. rewrite last_reverse. apply trimStart_head.
Qed.

Lemma trimEnd_prefix s : MessageInput.trimEnd s `prefix_of` s.
Proof.
  unfold MessageInput.trimEnd, MessageInput.trimStart.
  pose proof (span_app MessageInput.isWhiteSpace (reverse s)) as Hs.
  exists (reverse (span MessageInput.isWhiteSpace (reverse s)).1).
  rewrite <- reverse_app, Hs. by rewrite reverse_involutive.
Qed.

Lemma trimEnd_fixed s :
  (∀ c, last s = Some c → MessageInput.isWhiteSpace c = false) →
  MessageInput.trimEnd s = s.
Proof.
  intros Hs. unfold MessageInput.trimEnd.
  rewrite trimStart_fixed; [apply reverse_involutive|].
  intros c. rewrite head_reverse. apply Hs.
Qed.

Lemma trim_head s c :
  head (MessageInput.trim s) = Some c → MessageInput.isWhiteSpace c = false.
Proof.
  unfold MessageInput.trim. intros Hc.
  destruct (trimEnd_prefix (MessageInput.trimStart s)) as [k Hk].
  apply (trimStart_head s). rewrite Hk.
  by destruct (MessageInput.trimEnd (MessageInput.trimStart s)).
Qed.

Lemma trim_last s c :
  last (MessageInput.trim s) = Some c → MessageInput.isWhiteSpace c = false.
Proof. apply trimEnd_last. Qed.

Lemma trim_trim s : MessageInput.trim (MessageInput.trim s) = MessageInput.trim s.
Proof.
  unfold MessageInput.trim at 1.
  rewrite (trimStart_fixed (MessageInput.trim s)) by apply trim_head.
  apply trimEnd_fixed, trim_last.
Qed.

Lemma trim_blank s :
  Forall (λ c, MessageInput.isWhiteSpace c = true) s → MessageInput.trim s = [].
Proof.
  intros Hs. unfold MessageInput.trim, MessageInput.trimStart.
  by rewrite (span_all _ s Hs).
Qed.

(** X19.  Whatever the input hands to [onSend] is the typed text with the
    white space at both ends removed: it is never empty, neither starts nor
    ends with white space, and trimming it again changes nothing.  Nothing is
    sent while the input is disabled, and a send always clears the input. *)
Theorem input_sends_trimmed_text disabled message mounted text :
  MessageInput.OnSend text ∈ MessageInput.handleSend disabled message mounted →
  disabled = false
  ∧ text = MessageInput.trim message
  ∧ text ≠ []
  ∧ (∀ c, head text = Some c → MessageInput.isWhiteSpace c = false)
  ∧ (∀ c, last text = Some c → MessageInput.isWhiteSpace c = false)
  ∧ MessageInput.trim text = text
  ∧ MessageInput.SetMessage [] ∈ MessageInput.handleSend disabled message mounted.
Proof.
  unfold MessageInput.handleSend.
  destruct (nonEmpty (MessageInput.trim message)) eqn:Hne; simpl;
    [|by intros ?%elem_of_nil].
  destruct disabled; simpl; [by intros ?%elem_of_nil|].
  intros Hin.
  assert (text = MessageInput.trim message) as ->.
  { apply elem_of_cons in Hin as [[= ->]|Hin]; [done|].
    apply elem_of_cons in Hin as [?|Hin]; [done|].
    destruct mounted; [|by apply elem_of_nil in Hin].
    by apply list_elem_of_singleton in Hin. }
  split_and!; try done.
  - intros Hnil. by rewrite Hnil in Hne.
  - apply trim_head.
  - apply trim_last.
  - apply trim_trim.
  - apply elem_of_cons. right. apply elem_of_cons. by left.
Qed.

Lemma input_sends_trimmed_text_witness :
  MessageInput.OnSend (js "hi  there")
    ∈ MessageInput.handleSend false (js "  hi  there ") true
  ∧ js "hi  there" = MessageInput.trim (js "  hi  there ")
  ∧ MessageInput.trim (js "hi  there") = js "hi  there".
Proof.
  assert (MessageInput.OnSend (js "hi  there")
            ∈ MessageInput.handleSend false (js "  hi  there ") true) as Hin.
  { vm_compute. apply elem_of_cons. by left. }
  destruct (input_sends_trimmed_text false (js "  hi  there ") true
              (js "hi  there") Hin) as (_ & Htext & _ & _ & _ & Htrim & _).
  by split_and!.
Defined.

(** X20.  The send button is disabled exactly when a send would do
    nothing: the input is disabled or holds only white space.  In
    particular a text of white space alone is never sent. *)
Theorem send_button_matches_handler disabled message mounted :
  (MessageInput.buttonDisabled disabled message = true
   ↔ MessageInput.handleSend disabled message mounted = [])
  ∧ (Forall (λ c, MessageInput.isWhiteSpace c = true) message →
     MessageInput.handleSend disabled message mounted = []).
Proof.
  unfold MessageInput.buttonDisabled, MessageInput.handleSend. split.
  - destruct disabled, (nonEmpty (MessageInput.trim message)); simpl; by split.
  - intros Hblank. by rewrite trim_blank.
Qed.

(** X21.  Of all keys only Enter does anything, and it sends (and
    suppresses the default) unless Shift is held without Ctrl or Meta:
    Shift+Enter alone is left to insert a line break. *)
Theorem enter_sends_unless_shift e disabled message mounted :
  MessageInput.handleKeyDown e disabled message mounted
  = if bool_decide (MessageInput.key e = js "Enter")
       && (MessageInput.ctrlKey e || MessageInput.metaKey e
           || negb (MessageInput.shiftKey e))
    then MessageInput.PreventDefault
           :: MessageInput.handleSend disabled message mounted
    else [].
Proof.
  unfold MessageInput.handleKeyDown.
  destruct (bool_decide (MessageInput.key e = js "Enter")),
    (MessageInput.ctrlKey e), (MessageInput.metaKey e),
    (MessageInput.shiftKey e); done.
Qed.

(** * Properties of the settings panel *)

Lemma spreadSettings_all s l : spreadSettings s (allSettings l) = l.
Proof. by destruct l. Qed.

(** X22.  "Reset to Defaults" puts into the store exactly the settings the
    store itself starts with (the two literals, in the panel and in the
    store, agree), shows the same in the panel, and leaves the messages and
    the panel's open state alone. *)
Theorem reset_restores_store_defaults p store :
  ∃ store', (SettingsPanel.handleReset p store).2 = Normal store'
    ∧ settings store' = defaultSettings
    ∧ settings store' = settings initialState
    ∧ SettingsPanel.localSettings (SettingsPanel.handleReset p store).1
      = settings store'
    ∧ messages store' = messages store
    ∧ SettingsPanel.isOpen (SettingsPanel.handleReset p store).1
      = SettingsPanel.isOpen p.
Proof.
  eexists. split; [reflexivity|]. simpl. by split_and!.
Qed.

(** X23.  "Save Changes" installs the panel's settings as the store's
    settings, whole, closes the panel and leaves the messages alone; edits
    made in the panel reach the store only then.  After editing one field
    of a freshly mounted panel and saving, the store's settings differ from
    the old ones in that field only. *)
Theorem save_installs_panel_settings p store value :
  (∃ store', (SettingsPanel.handleSave p store).2 = Normal store'
     ∧ settings store' = SettingsPanel.localSettings p
     ∧ messages store' = messages store
     ∧ SettingsPanel.isOpen (SettingsPanel.handleSave p store).1 = false)
  ∧ (∃ store',
       (SettingsPanel.handleSave
          (SettingsPanel.editMaxTokens value (SettingsPanel.mount store)) store).2
       = Normal store'
       ∧ maxTokens (settings store') = value
       ∧ temperature (settings store') = temperature (settings store)
       ∧ enableThinking (settings store') = enableThinking (settings store)
       ∧ systemPrompt (settings store') = systemPrompt (settings store)).
Proof.
  split.
  - eexists. split; [reflexivity|]. simpl.
    rewrite spreadSettings_all. by split_and!.
  - eexists. split; [reflexivity|]. simpl. by split_and!.
Qed.
